(** * arxiv_toolkit: the LaTeX command scanners of [categorize_arxiv.py]

    A shallow embedding of [char_gen], [check_abstract] and [check_document]
    and the properties of their results.

    Conventions of the embedding.
    - A Python [str] is a [list char]; a [char] is a Unicode code point, kept
      as an [N].  Literals of the source are written [str "..."].
    - Python [int]s that can be negative ([index], [start], [end],
      [command_found], [nb_brackets]) are [Z]; lengths and list positions are
      [nat].
    - Exceptions are explicit: every list operation that can raise returns a
      [res], and a call ends in an [outcome].
    - The generator [char_gen] is its frame: the string and the counter [i].
    - [while True] is a loop with fuel; a result never depends on the fuel
      once there is enough of it (see [loop_run]). *)

From Stdlib Require Import String Ascii.
From Stdlib Require Import List ZArith NArith Lia Bool.
Import ListNotations.

(** ** Strings *)

Definition char := N.

Definition str (s : string) : list char :=
  map N_of_ascii (list_ascii_of_string s).

(** The characters the scanners test: ['{'], ['}'] and the backslash. *)
Definition lbrace : char := 123%N.
Definition rbrace : char := 125%N.
Definition backslash : char := 92%N.

Fixpoint list_eqb (a b : list char) : bool :=
  match a, b with
  | [], [] => true
  | x :: a', y :: b' => N.eqb x y && list_eqb a' b'
  | _, _ => false
  end.

(** ** Exceptions and results *)

Inductive exn := IndexError | ValueError.

Inductive res (A : Type) : Type :=
| Ok (a : A)
| Raise (e : exn).

Arguments Ok {A} a.
Arguments Raise {A} e.

Definition bind {A B : Type} (m : res A) (k : A -> res B) : res B :=
  match m with
  | Ok a => k a
  | Raise e => Raise e
  end.

Notation "x <- m ;; k" := (bind m (fun x => k))
  (at level 61, m at next level, right associativity).

(** What a call of a scanner ends in.  [OutOfFuel] belongs to the model
    only: the loop was cut before the function returned. *)
Inductive outcome :=
| Returned (r : bool * Z * Z)
| Raised (e : exn)
| OutOfFuel.

(** ** Python list operations *)

(** [l[i]] *)
Definition getitem {A : Type} (l : list A) (i : nat) : res A :=
  match nth_error l i with
  | Some a => Ok a
  | None => Raise IndexError
  end.

(** [l.pop(0)], the list that is left *)
Definition pop0 {A : Type} (l : list A) : res (list A) :=
  match l with
  | [] => Raise IndexError
  | _ :: t => Ok t
  end.

(** [l.index(x)]: the first position whose element equals [x] *)
Fixpoint list_index (l : list (list char)) (x : list char) : res nat :=
  match l with
  | [] => Raise ValueError
  | y :: t => if list_eqb y x then Ok 0%nat
              else n <- list_index t x ;; Ok (S n)
  end.

(** The element at position [i] replaced: what an in-place change of
    [l[i]] leaves in [l]. *)
Fixpoint set_nth {A : Type} (i : nat) (v : A) (l : list A) : list A :=
  match l, i with
  | [], _ => []
  | _ :: t, O => v :: t
  | x :: t, S j => x :: set_nth j v t
  end.

(** [seq.append(char)], then [seq.pop(0)] when [len(seq) > window_size]:
    the sliding window the three matchers of the source share. *)
Definition slide (window_size : nat) (window : list char) (c : char)
  : res (list char) :=
  let window := window ++ [c] in
  if (window_size <? length window)%nat then pop0 window else Ok window.

(** ** char_gen *)

Record gen := { contents : list char; pos : nat }.

Definition char_gen (tex_contents : list char) : gen :=
  {| contents := tex_contents; pos := 0 |}.

Inductive gen_step :=
| Yield (c : char) (g : gen)
| StopIteration
| GenRaise (e : exn).

(** [next(tex_seq)]: the test [i <= len(tex_contents)-1] is on integers. *)
Definition next (g : gen) : gen_step :=
  if (Z.of_nat (pos g) <=? Z.of_nat (length (contents g)) - 1)%Z
  then match getitem (contents g) (pos g) with
       | Ok c => Yield c {| contents := contents g; pos := S (pos g) |}
       | Raise e => GenRaise e
       end
  else StopIteration.

(** ** The [while True] loop *)

Section WhileTrue.

Variable state : Type.

(** One pass through the loop body once [next] gave a character: either
    the next state or the returned triple. *)
Variable body : char -> state -> res (state + bool * Z * Z).

Inductive step :=
| Continue (st : state) (g : gen)
| Return (r : bool * Z * Z).

(** One iteration: the [try] block, then the body. *)
Definition iter (st : state) (tex_seq : gen) : res step :=
  match next tex_seq with
  | GenRaise e => Raise e
  | StopIteration => Ok (Return (false, -1, -1)%Z)
  | Yield c tex_seq' =>
      r <- body c st ;;
      match r with
      | inl st' => Ok (Continue st' tex_seq')
      | inr t => Ok (Return t)
      end
  end.

Fixpoint loop (fuel : nat) (st : state) (tex_seq : gen) : outcome :=
  match fuel with
  | O => OutOfFuel
  | S fuel' =>
      match iter st tex_seq with
      | Raise e => Raised e
      | Ok (Return t) => Returned t
      | Ok (Continue st' tex_seq') => loop fuel' st' tex_seq'
      end
  end.

(** The loop read off the characters that are left. *)
Fixpoint run (st : state) (rest : list char) : outcome :=
  match rest with
  | [] => Returned (false, -1, -1)%Z
  | c :: rest' =>
      match body c st with
      | Raise e => Raised e
      | Ok (inr t) => Returned t
      | Ok (inl st') => run st' rest'
      end
  end.

End WhileTrue.

Arguments Continue {state} st g.
Arguments Return {state} r.
Arguments iter {state} body st tex_seq.
Arguments loop {state} body fuel st tex_seq.
Arguments run {state} body st rest.

(** ** check_abstract *)

Module Abstract.

Definition begin_abstract : list char := str "\begin{abstract}".
Definition abstract_brace : list char := str "\abstract{".
Definition end_abstract : list char := str "\end{abstract}".

Definition commands : list (list char) := [begin_abstract; abstract_brace].
Definition terminates : list (list char) := [end_abstract; str "}"].

Record state := {
  word_seqs : list (list char);
  term_seq : list char;
  command_found : Z;
  nb_brackets : Z;
  abstract : bool;
  index : Z;
  start : Z;
  end_ : Z
}.

Definition init : state :=
  {| word_seqs := [[]; []]; term_seq := []; command_found := -1;
     nb_brackets := 0; abstract := false; index := 0;
     start := -1; end_ := -1 |}.

Definition set_index (st : state) (v : Z) : state :=
  {| word_seqs := word_seqs st; term_seq := term_seq st;
     command_found := command_found st; nb_brackets := nb_brackets st;
     abstract := abstract st; index := v;
     start := start st; end_ := end_ st |}.

Definition set_word_seqs (st : state) (v : list (list char)) : state :=
  {| word_seqs := v; term_seq := term_seq st;
     command_found := command_found st; nb_brackets := nb_brackets st;
     abstract := abstract st; index := index st;
     start := start st; end_ := end_ st |}.

Definition set_term_seq (st : state) (v : list char) : state :=
  {| word_seqs := word_seqs st; term_seq := v;
     command_found := command_found st; nb_brackets := nb_brackets st;
     abstract := abstract st; index := index st;
     start := start st; end_ := end_ st |}.

Definition set_nb_brackets (st : state) (v : Z) : state :=
  {| word_seqs := word_seqs st; term_seq := term_seq st;
     command_found := command_found st; nb_brackets := v;
     abstract := abstract st; index := index st;
     start := start st; end_ := end_ st |}.

Definition set_end (st : state) (v : Z) : state :=
  {| word_seqs := word_seqs st; term_seq := term_seq st;
     command_found := command_found st; nb_brackets := nb_brackets st;
     abstract := abstract st; index := index st;
     start := start st; end_ := v |}.

(** [abstract = True; start = index - window_size;
    command_found = seq_index] *)
Definition arm (st : state) (window_size seq_index : nat) : state :=
  {| word_seqs := word_seqs st; term_seq := term_seq st;
     command_found := Z.of_nat seq_index; nb_brackets := nb_brackets st;
     abstract := true; index := index st;
     start := index st - Z.of_nat window_size; end_ := end_ st |}.

(** The body of [for word_seq in word_seqs], at the [i]-th element.
    [word_seq] is the element itself, so the append and the pop change
    [word_seqs[i]]; [seq_index] is looked up by value before them. *)
Definition search_one (c : char) (st : state) (i : nat) : res state :=
  word_seq <- getitem (word_seqs st) i ;;
  seq_index <- list_index (word_seqs st) word_seq ;;
  command <- getitem commands seq_index ;;
  let window_size := length command in
  word_seq <- slide window_size word_seq c ;;
  let st := set_word_seqs st (set_nth i word_seq (word_seqs st)) in
  if list_eqb word_seq command
  then Ok (arm st window_size seq_index)
  else Ok st.

Fixpoint for_each (f : state -> nat -> res state) (positions : list nat)
    (st : state) : res state :=
  match positions with
  | [] => Ok st
  | i :: rest => st' <- f st i ;; for_each f rest st'
  end.

(** [for word_seq in word_seqs: ...].  The loop has no [break], and
    [word_seqs] keeps its length, so every position is visited. *)
Definition search (c : char) (st : state) : res state :=
  for_each (search_one c) (seq 0 (length (word_seqs st))) st.

(** The block under [if abstract is True]. *)
Definition terminate (c : char) (st : state)
  : res (state + bool * Z * Z) :=
  if (command_found st =? 0)%Z then
    terminate0 <- getitem terminates 0 ;;
    let window_size := length terminate0 in
    term_seq <- slide window_size (term_seq st) c ;;
    let st := set_term_seq st term_seq in
    if list_eqb term_seq terminate0
    then let st := set_end st (index st) in
         Ok (inr (abstract st, start st, end_ st))
    else Ok (inl st)
  else if (command_found st =? 1)%Z then
    let st := if N.eqb c lbrace
              then set_nb_brackets st (nb_brackets st + 1) else st in
    let st := if N.eqb c rbrace
              then set_nb_brackets st (nb_brackets st - 1) else st in
    if (nb_brackets st <=? 0)%Z
    then let st := set_end st (index st) in
         Ok (inr (abstract st, start st, end_ st))
    else Ok (inl st)
  else Ok (inl st).

(** The loop body after [char = next(tex_seq)]. *)
Definition body (c : char) (st : state) : res (state + bool * Z * Z) :=
  let st := set_index st (index st + 1) (* len(char) = 1 *) in
  st <- (if negb (abstract st) then search c st else Ok st) ;;
  if abstract st then terminate c st else Ok (inl st).

Definition check_abstract_fuel (fuel : nat) (tex_contents : list char)
  : outcome :=
  loop body fuel init (char_gen tex_contents).

End Abstract.

(** [check_abstract(tex_contents)].  The loop takes one iteration for each
    character and one more to meet [StopIteration]. *)
Definition check_abstract (tex_contents : list char) : outcome :=
  Abstract.check_abstract_fuel (S (length tex_contents)) tex_contents.

(** *** The search loop for any list of commands

    [commands] is a local list of [check_abstract], which the [for] loop
    reads through [commands[seq_index]] only.  Here the loop, the loop
    body and the function are written once more with that list as a
    parameter: at [Abstract.commands] they are [Abstract.search],
    [Abstract.body] and [check_abstract]. *)
Definition search_one_with (commands : list (list char)) (c : char)
    (st : Abstract.state) (i : nat) : res Abstract.state :=
  word_seq <- getitem (Abstract.word_seqs st) i ;;
  seq_index <- list_index (Abstract.word_seqs st) word_seq ;;
  command <- getitem commands seq_index ;;
  let window_size := length command in
  word_seq <- slide window_size word_seq c ;;
  let st :=
    Abstract.set_word_seqs st (set_nth i word_seq (Abstract.word_seqs st)) in
  if list_eqb word_seq command
  then Ok (Abstract.arm st window_size seq_index)
  else Ok st.

Definition search_with (commands : list (list char)) (c : char)
    (st : Abstract.state) : res Abstract.state :=
  Abstract.for_each (search_one_with commands c)
    (seq 0 (length (Abstract.word_seqs st))) st.

Definition body_with (commands : list (list char)) (c : char)
    (st : Abstract.state) : res (Abstract.state + bool * Z * Z) :=
  let st := Abstract.set_index st (Abstract.index st + 1) in
  st <- (if negb (Abstract.abstract st) then search_with commands c st
         else Ok st) ;;
  if Abstract.abstract st then Abstract.terminate c st else Ok (inl st).

Definition check_abstract_with (commands : list (list char))
    (tex_contents : list char) : outcome :=
  loop (body_with commands) (S (length tex_contents)) Abstract.init
    (char_gen tex_contents).

(** ** check_document *)

Module Document.

Definition begin_document : list char := str "\begin{document}".
Definition end_document : list char := str "\end{document}".

Definition commands : list (list char) := [begin_document].
Definition terminates : list (list char) := [end_document].

Record state := {
  word_seq : list char;
  term_seq : list char;
  doc : bool;
  index : Z;
  start : Z;
  end_ : Z
}.

Definition init : state :=
  {| word_seq := []; term_seq := []; doc := false; index := 0;
     start := -1; end_ := -1 |}.

Definition set_index (st : state) (v : Z) : state :=
  {| word_seq := word_seq st; term_seq := term_seq st; doc := doc st;
     index := v; start := start st; end_ := end_ st |}.

Definition set_word_seq (st : state) (v : list char) : state :=
  {| word_seq := v; term_seq := term_seq st; doc := doc st;
     index := index st; start := start st; end_ := end_ st |}.

Definition set_term_seq (st : state) (v : list char) : state :=
  {| word_seq := word_seq st; term_seq := v; doc := doc st;
     index := index st; start := start st; end_ := end_ st |}.

Definition set_end (st : state) (v : Z) : state :=
  {| word_seq := word_seq st; term_seq := term_seq st; doc := doc st;
     index := index st; start := start st; end_ := v |}.

(** [doc = True; start = index - window_size] *)
Definition arm (st : state) (window_size : nat) : state :=
  {| word_seq := word_seq st; term_seq := term_seq st; doc := true;
     index := index st; start := index st - Z.of_nat window_size;
     end_ := end_ st |}.

(** The block under [if doc is False]. *)
Definition search (c : char) (st : state) : res state :=
  command <- getitem commands 0 ;;
  let window_size := length command in
  word_seq <- slide window_size (word_seq st) c ;;
  let st := set_word_seq st word_seq in
  if list_eqb word_seq command then Ok (arm st window_size) else Ok st.

(** The block under [if doc is True]. *)
Definition terminate (c : char) (st : state)
  : res (state + bool * Z * Z) :=
  terminate0 <- getitem terminates 0 ;;
  let window_size := length terminate0 in
  term_seq <- slide window_size (term_seq st) c ;;
  let st := set_term_seq st term_seq in
  if list_eqb term_seq terminate0
  then let st := set_end st (index st) in
       Ok (inr (doc st, start st, end_ st))
  else Ok (inl st).

Definition body (c : char) (st : state) : res (state + bool * Z * Z) :=
  let st := set_index st (index st + 1) (* len(char) = 1 *) in
  st <- (if negb (doc st) then search c st else Ok st) ;;
  if doc st then terminate c st else Ok (inl st).

Definition check_document_fuel (fuel : nat) (tex_contents : list char)
  : outcome :=
  loop body fuel init (char_gen tex_contents).

End Document.

Definition check_document (tex_contents : list char) : outcome :=
  Document.check_document_fuel (S (length tex_contents)) tex_contents.

(** ** The rest of the repository

    The other functions of [categorize_arxiv.py], and the string handling
    of [extract_arxiv_sources.py] and [download_arxiv.py].  What the file
    system and the network answer is a parameter of the model. *)

(** Exceptions of this part, and what a call ends in. *)
Inductive error := Builtin (e : exn) | KeyError | AssertionError | OSError.

Inductive result (A : Type) : Type :=
| Val (a : A)
| Exc (e : error)
| Fuel.

Arguments Val {A} a.
Arguments Exc {A} e.
Arguments Fuel {A}.

Definition of_res {A : Type} (r : res A) : result A :=
  match r with
  | Ok a => Val a
  | Raise e => Exc (Builtin e)
  end.

Definition dot : char := 46%N.
Definition slash : char := 47%N.

(** [c in s] for a character and a string; [x in l] for a string and a
    list of strings. *)
Definition char_in (c : char) (s : list char) : bool := existsb (N.eqb c) s.
Definition str_in (x : list char) (l : list (list char)) : bool :=
  existsb (list_eqb x) l.

(** [s.split(sep)], for a separator of one character: the parts between
    the separators, empty ones included; never an empty list. *)
Fixpoint split (sep : char) (s : list char) : list (list char) :=
  match s with
  | [] => [[]]
  | c :: s' =>
      if N.eqb c sep then [] :: split sep s'
      else match split sep s' with
           | part :: parts => (c :: part) :: parts
           | [] => [[c]]
           end
  end.

(** [l[-1]] *)
Definition last_item {A : Type} (l : list A) : res A :=
  match rev l with
  | [] => Raise IndexError
  | a :: _ => Ok a
  end.

(** [s.endswith(suffix)] *)
Definition endswith (s suffix : list char) : bool :=
  list_eqb (skipn (length s - length suffix) s) suffix.

(** [s[:stop]]: a negative [stop] counts from the end. *)
Definition slice_to (s : list char) (stop : Z) : list char :=
  if (stop <? 0)%Z
  then firstn (Z.to_nat (Z.max 0 (Z.of_nat (length s) + stop))) s
  else firstn (Z.to_nat stop) s.

(** [sum] of a list of booleans *)
Definition sum_bools (l : list bool) : Z :=
  fold_left (fun acc (b : bool) => if b then (acc + 1)%Z else acc) l 0%Z.

(** *** char_gen and word_gen, as the lists they yield *)

(** [list(tex_seq)] *)
Fixpoint drain (fuel : nat) (tex_seq : gen) : result (list char) :=
  match fuel with
  | O => Fuel
  | S fuel' =>
      match next tex_seq with
      | GenRaise e => Exc (Builtin e)
      | StopIteration => Val []
      | Yield c tex_seq' =>
          match drain fuel' tex_seq' with
          | Val l => Val (c :: l)
          | other => other
          end
      end
  end.

Definition default_filter : list char := str " .!}{)(,$%%][" ++ [backslash].

(** What [word_gen] yields from the iteration at position [i] on, with
    [word] the word under construction: [''.join(word)] when a filter
    character ends a word that is not empty, then the character. *)
Fixpoint word_gen_loop (fuel : nat) (tex_contents filter : list char)
    (i : nat) (word : list char) : result (list (list char)) :=
  match fuel with
  | O => Fuel
  | S fuel' =>
      if (Z.of_nat i <=? Z.of_nat (length tex_contents) - 1)%Z then
        match getitem tex_contents i with
        | Raise e => Exc (Builtin e)
        | Ok c =>
            if char_in c filter then
              let yielded :=
                if (0 <? length word)%nat then [word; [c]] else [[c]] in
              match word_gen_loop fuel' tex_contents filter (S i) [] with
              | Val l => Val (yielded ++ l)
              | other => other
              end
            else word_gen_loop fuel' tex_contents filter (S i) (word ++ [c])
        end
      else Val []
  end.

(** [list(word_gen(tex_contents, filter))] *)
Definition word_gen (tex_contents filter : list char)
  : result (list (list char)) :=
  word_gen_loop (S (length tex_contents)) tex_contents filter 0 [].

(** *** print_tex *)

(** The text [print_tex] prints.  [exists_] is what [os.path.exists]
    answers, [file] what reading the file gives ([None]: an error). *)
Definition print_tex (exists_ : bool) (tex_file_dir : list char)
    (file : option (list char)) : result (list char) :=
  if negb exists_ then Exc AssertionError
  else if negb (endswith tex_file_dir (str ".tex")) then Exc AssertionError
  else match file with
       | None => Exc OSError
       | Some tex_contents =>
           Val (slice_to tex_contents
                  (Z.min (Z.of_nat (length tex_contents) - 1) 5000))
       end.

(** *** filter_dots (extract_arxiv_sources.py) *)

Definition filter_dots (filename : list char) : list char :=
  let split_ := split dot filename in
  fold_left (fun out x => out ++ x) split_ [].

(** *** download_arxiv.py *)

Module Download.

(** [filename = url.split('/')[-1]], in [download] and in
    [download_arxiv]. *)
Definition filename (url : list char) : res (list char) :=
  last_item (split slash url).

(** [if url_pdf.split('.')[-1] != 'pdf': url_pdf = url_pdf + '.pdf'] *)
Definition pdf_url (url_pdf : list char) : res (list char) :=
  ext <- last_item (split dot url_pdf) ;;
  if negb (list_eqb ext (str "pdf"))
  then Ok (url_pdf ++ str ".pdf")
  else Ok url_pdf.

(** A link of an entry of the feed: a dictionary, kept as the list of its
    items. *)
Definition link := list (list char * list char).

(** [key in d] and [d[key]] *)
Definition has_key (key : list char) (d : link) : bool :=
  existsb (fun kv => list_eqb (fst kv) key) d.

Fixpoint lookup (key : list char) (d : link) : result (list char) :=
  match d with
  | [] => Exc KeyError
  | (k, v) :: d' => if list_eqb k key then Val v else lookup key d'
  end.

(** [entry['link']], as [xmltodict.parse] builds it from the [<link>]
    elements of the entry: the key is missing when there is none, the
    value is the dictionary of the link itself when there is one, and a
    list of dictionaries from two on. *)
Inductive link_value :=
| LinkDict (l : link)
| LinkList (ls : list link).

Definition entry_link (links : list link) : result link_value :=
  match links with
  | [] => Exc KeyError
  | [l] => Val (LinkDict l)
  | _ => Val (LinkList links)
  end.

(** [v[n]] for the number [n]: the keys of a dictionary of a link are
    strings, so [n] is none of them. *)
Definition nth_link (v : link_value) (n : nat) : result link :=
  match v with
  | LinkDict _ => Exc KeyError
  | LinkList ls => of_res (getitem ls n)
  end.

(** [entry['link'][n]] *)
Definition entry_link_nth (links : list link) (n : nat) : result link :=
  match entry_link links with
  | Val v => nth_link v n
  | Exc e => Exc e
  | Fuel => Fuel
  end.

(** The loop [while n<=2] that looks for the link titled [pdf]: the value
    of [n] when it ends. *)
Fixpoint pdf_link_loop (fuel : nat) (links : list link) (n : nat)
  : result nat :=
  match fuel with
  | O => Fuel
  | S fuel' =>
      if (n <=? 2)%nat then
        match entry_link_nth links n with
        | Val l =>
            if has_key (str "@title") l then
              match entry_link_nth links n with
              | Val l' =>
                  match lookup (str "@title") l' with
                  | Val title =>
                      if list_eqb title (str "pdf") then Val n
                      else pdf_link_loop fuel' links (S n)
                  | Exc e => Exc e
                  | Fuel => Fuel
                  end
              | Exc e => Exc e
              | Fuel => Fuel
              end
            else pdf_link_loop fuel' links (S n)
        | Exc e => Exc e
        | Fuel => Fuel
        end
      else Val n
  end.

(** [url_pdf = entry['link'][n]['@href']] after the loop; [links] are the
    [<link>] elements of the entry. *)
Definition url_pdf (links : list link) : result (list char) :=
  match pdf_link_loop 4 links 0 with
  | Val n =>
      match entry_link_nth links n with
      | Val l => lookup (str "@href") l
      | Exc e => Exc e
      | Fuel => Fuel
      end
  | Exc e => Exc e
  | Fuel => Fuel
  end.

(** The argument [category]: [None], a list of names, or a name. *)
Inductive category_arg :=
| CategoryNone
| CategoryList (l : list (list char))
| CategoryName (c : list char).

(** The values the tests of the selection compare. *)
Inductive value := VList (l : list (list char)) | VBool (b : bool).

(** [v is False] *)
Definition is_False (v : value) : bool :=
  match v with
  | VBool false => true
  | _ => false
  end.

Definition categories : list (list char) :=
  [str "astro-ph"; str "cond-mat"; str "gr-qc"; str "hep-ex";
   str "hep-lat"; str "hep-ph"; str "hep-th"; str "math-ph";
   str "nucl-ex"; str "nucl-th"; str "quant-ph"; str "cs.ai";
   str "math.at"].

(** [for cat in category: if <test>: raise ValueError(...)] *)
Fixpoint raise_if (test : list char -> bool) (category : list (list char))
  : res unit :=
  match category with
  | [] => Ok tt
  | cat :: rest =>
      if test cat then Raise ValueError else raise_if test rest
  end.

(** The categories [download_arxiv] goes through.  The test of the loop,
    [cat in categories is False], is a chain of comparisons:
    [cat in categories and categories is False]. *)
Definition download_categories (category : category_arg)
  : res (list (list char)) :=
  match category with
  | CategoryNone => Ok categories
  | CategoryList l =>
      _ <- raise_if
             (fun cat => str_in cat categories && is_False (VList categories))
             l ;;
      Ok l
  | CategoryName c =>
      if str_in c categories then Ok [c] else Raise ValueError
  end.

(** The categories [retrieve_sources] goes through; [listed] is
    [os.listdir(arxiv_dir)]. *)
Definition retrieve_categories (listed : list (list char))
    (category : category_arg) : res (list (list char)) :=
  match category with
  | CategoryNone => Ok listed
  | CategoryList l =>
      _ <- raise_if (fun cat => negb (str_in cat l)) l ;;
      Ok l
  | CategoryName c =>
      if str_in c listed then Ok [c] else Ok listed
  end.

End Download.

(** *** categorize: the row of one source folder *)

Module Categorize.

Record row := {
  source_dir : list char;
  pdf_dir : list char;
  cat : list char;
  num_tex : Z;
  abstract : bool;
  abs_start : Z;
  abs_end : Z;
  doc : bool;
  doc_start : Z;
  doc_end : Z;
  num_bbl : Z;
  num_folder : Z;
  error : bool
}.

(** What the file system answers for one folder: the names
    [os.listdir(folder_dir)] gives, which of them are directories, what
    reading one of them gives ([None]: an exception), and the pdf:
    [None] when [raw_dir] does not exist, [Some None] when opening it
    raises, [Some (Some b)] when [fp.readable()] is [b]. *)
Record folder := {
  files : list (list char);
  isdir : list char -> bool;
  read : list char -> option (list char);
  raw : option (option bool)
}.

(** The variables the [try] block assigns. *)
Record scan := {
  s_abstract : bool * Z * Z;
  s_doc : bool * Z * Z;
  s_error : bool
}.

Definition no_scan : scan :=
  {| s_abstract := (false, -1, -1)%Z; s_doc := (false, -1, -1)%Z;
     s_error := false |}.

(** The [try] block on the file [f]: an exception from the reading or from
    a scanner sets [error] and leaves what was not yet assigned. *)
Definition try_scan (fd : folder) (f : list char) : result scan :=
  match read fd f with
  | None =>
      Val {| s_abstract := (false, -1, -1)%Z; s_doc := (false, -1, -1)%Z;
             s_error := true |}
  | Some tex_contents =>
      match check_abstract tex_contents with
      | OutOfFuel => Fuel
      | Raised _ =>
          Val {| s_abstract := (false, -1, -1)%Z;
                 s_doc := (false, -1, -1)%Z; s_error := true |}
      | Returned a =>
          match check_document tex_contents with
          | OutOfFuel => Fuel
          | Raised _ =>
              Val {| s_abstract := a; s_doc := (false, -1, -1)%Z;
                     s_error := true |}
          | Returned d =>
              Val {| s_abstract := a; s_doc := d; s_error := false |}
          end
      end
  end.

(** [for f in files: if f.endswith('.tex'): try ... finally: break] *)
Fixpoint scan_first_tex (fd : folder) (fs : list (list char))
  : result scan :=
  match fs with
  | [] => Val no_scan
  | f :: fs' =>
      if endswith f (str ".tex") then try_scan fd f
      else scan_first_tex fd fs'
  end.

(** The line [new_line] that the body of [for folder in source_folders]
    builds from the names [os.listdir(folder_dir)] returned (lines 366 to
    403).  [folder_dir], [raw_dir] and [cat_] are the paths and the
    category of the folder.  The listing itself and the writing of the
    line, which both can raise, are in [folder_step]. *)
Definition folder_row (folder_dir raw_dir cat_ : list char) (fd : folder)
  : result row :=
  let num_tex_ :=
    sum_bools (map (fun x => endswith x (str ".tex")) (files fd)) in
  let num_bbl_ :=
    sum_bools (map (fun x => endswith x (str ".bbl")) (files fd)) in
  let num_folder_ := sum_bools (map (isdir fd) (files fd)) in
  match (if (num_tex_ =? 1)%Z then scan_first_tex fd (files fd)
         else Val no_scan) with
  | Val sc =>
      let '(abstract_, abs_start_, abs_end_) := s_abstract sc in
      let '(doc_, doc_start_, doc_end_) := s_doc sc in
      let line error_ :=
        {| source_dir := folder_dir; pdf_dir := raw_dir; cat := cat_;
           num_tex := num_tex_; abstract := abstract_;
           abs_start := abs_start_; abs_end := abs_end_;
           doc := doc_; doc_start := doc_start_; doc_end := doc_end_;
           num_bbl := num_bbl_; num_folder := num_folder_;
           error := error_ |} in
      match raw fd with
      | None => Val (line (s_error sc))
      | Some None => Exc OSError
      | Some (Some readable) =>
          Val (line (if negb readable then true else s_error sc))
      end
  | Exc e => Exc e
  | Fuel => Fuel
  end.

(** The whole body of [for folder in source_folders] (lines 364 to 405):
    [files = os.listdir(folder_dir)], the line, and
    [csv_writer.writerow(new_line)].  [listed] is [None] when the listing
    raises (an [OSError]: the entry of the category is no directory, or
    may not be read); [writable] tells whether the csv file can encode a
    line (if not, [writerow] raises [UnicodeEncodeError], a
    [ValueError]).  The result is the line written. *)
Definition folder_step (folder_dir raw_dir cat_ : list char)
    (listed : option folder) (writable : row -> bool) : result row :=
  match listed with
  | None => Exc OSError
  | Some fd =>
      match folder_row folder_dir raw_dir cat_ fd with
      | Val new_line =>
          if writable new_line then Val new_line
          else Exc (Builtin ValueError)
      | Exc e => Exc e
      | Fuel => Fuel
      end
  end.

End Categorize.

(** ** Vocabulary of the statements *)

(** [pat] is a prefix of [l]; [pat] occurs in [l] as a substring. *)
Fixpoint prefixb (pat l : list char) : bool :=
  match pat, l with
  | [], _ => true
  | x :: pat', y :: l' => N.eqb x y && prefixb pat' l'
  | _ :: _, [] => false
  end.

Fixpoint occursb (pat l : list char) : bool :=
  prefixb pat l ||
  match l with
  | [] => false
  | _ :: l' => occursb pat l'
  end.

(** Braces opened minus braces closed. *)
Definition count (c : char) (l : list char) : Z :=
  Z.of_nat (count_occ N.eq_dec l c).

Definition balance (l : list char) : Z := count lbrace l - count rbrace l.

(** [l] is the text after an opening brace: its [k]-th character brings
    the depth, 1 before [l], back to zero or below. *)
Definition closes_at (l : list char) (k : nat) : bool :=
  (1 + balance (firstn k l) <=? 0)%Z.

(** No character of [l] closes the opening brace. *)
Definition never_closes (l : list char) : bool :=
  forallb (fun k => negb (closes_at l k)) (seq 1 (length l)).

(** Every prefix of [l] has closed no more braces than it opened, and [l]
    as a whole has closed them all. *)
Definition balanced (l : list char) : bool :=
  forallb (fun k => (0 <=? balance (firstn k l))%Z) (seq 0 (S (length l)))
  && (balance l =? 0)%Z.

(** [l] starts with a backslash and holds no other one: so it is with the
    literals of the scanners and with any prefix of them. *)
Definition backslash_head (l : list char) : bool :=
  match l with
  | [] => false
  | x :: l' => N.eqb x backslash && negb (existsb (N.eqb backslash) l')
  end.

(** The last [n] characters of [l] (all of [l] when it is shorter): what a
    window of size [n] holds after [l] went through it. *)
Definition lastn (n : nat) (l : list char) : list char :=
  skipn (length l - n) l.

(** [slide] without the exception. *)
Definition push (w : nat) (l : list char) (c : char) : list char :=
  let l' := l ++ [c] in
  if (w <? length l')%nat then tl l' else l'.

(** What [next] does on a generator over [d] that stands at position [n]:
    it yields the character of [d] at [n] and moves to [n + 1], or [d] is
    exhausted and it stops. *)
Definition yields_in_order (d : list char) (n : nat) (r : gen_step) : Prop :=
  match r with
  | Yield c g' =>
      nth_error d n = Some c /\ g' = {| contents := d; pos := S n |}
  | StopIteration => (length d <= n)%nat
  | GenRaise _ => False
  end.

(** What an iteration that goes on has done to a generator over [d] that
    stood at position [n]: it took the character there, and only it. *)
Definition one_character {state : Type} (d : list char) (n : nat)
    (r : res (step state)) : Prop :=
  match r with
  | Ok (Continue _ g') =>
      contents g' = d /\ pos g' = S n /\ (n < length d)%nat
  | _ => True
  end.

(** The invariant of a result triple, for a document of [len] characters. *)
Definition scan_result_inv (len : Z) (r : bool * Z * Z) : Prop :=
  let '(found, s, e) := r in
  (found = false -> s = (-1)%Z /\ e = (-1)%Z) /\
  (found = true -> (0 <= s < e)%Z /\ (e <= len)%Z).

(** *** Vocabulary for the rest of the repository *)

(** The span [(s, e)] delimits in [d] a construct of [check_abstract]: the
    text from position [s] up to position [e], not included, is the first
    opening literal of [d] and what follows it up to its terminator. *)
Definition abstract_span (d : list char) (s e : Z) : Prop :=
  exists pre x post,
    d = pre ++ x ++ post /\
    s = Z.of_nat (length pre) /\
    e = Z.of_nat (length pre + length x) /\
    occursb Abstract.begin_abstract pre = false /\
    occursb Abstract.abstract_brace pre = false /\
    exists body,
      (x = Abstract.begin_abstract ++ body ++ Abstract.end_abstract /\
       occursb Abstract.end_abstract body = false) \/
      (x = Abstract.abstract_brace ++ body ++ [rbrace] /\
       balanced body = true).

(** [d] holds nothing for [check_abstract] to find: no opening literal, or
    a first one that is never terminated. *)
Definition abstract_absent (d : list char) : Prop :=
  (occursb Abstract.begin_abstract d = false /\
   occursb Abstract.abstract_brace d = false) \/
  exists pre rest,
    occursb Abstract.begin_abstract pre = false /\
    occursb Abstract.abstract_brace pre = false /\
    ((d = pre ++ Abstract.begin_abstract ++ rest /\
      occursb Abstract.end_abstract rest = false) \/
     (d = pre ++ Abstract.abstract_brace ++ rest /\
      never_closes rest = true)).

Definition document_span (d : list char) (s e : Z) : Prop :=
  exists pre body post,
    d = pre ++ (Document.begin_document ++ body ++ Document.end_document)
          ++ post /\
    s = Z.of_nat (length pre) /\
    e = Z.of_nat (length pre + (16 + length body + 14)) /\
    occursb Document.begin_document pre = false /\
    occursb Document.end_document body = false.

Definition document_absent (d : list char) : Prop :=
  occursb Document.begin_document d = false \/
  exists pre rest,
    d = pre ++ Document.begin_document ++ rest /\
    occursb Document.begin_document pre = false /\
    occursb Document.end_document rest = false.

(** The link has a title, and it is [pdf]. *)
Definition titled_pdf (l : Download.link) : bool :=
  Download.has_key (str "@title") l &&
  match Download.lookup (str "@title") l with
  | Val title => list_eqb title (str "pdf")
  | _ => false
  end.

(** The yields of [word_gen] read off the characters that are left. *)
Fixpoint words (filter rest word : list char) : list (list char) :=
  match rest with
  | [] => []
  | c :: rest' =>
      if char_in c filter then
        (if (0 <? length word)%nat then [word; [c]] else [[c]])
          ++ words filter rest' []
      else words filter rest' (word ++ [c])
  end.

(** An item that is a filter character; an item that is a word; a list of
    items in which every word is followed by a filter character. *)
Definition is_sep (filter item : list char) : bool :=
  match item with
  | [c] => char_in c filter
  | _ => false
  end.

Definition is_word (filter item : list char) : bool :=
  (0 <? length item)%nat && forallb (fun c => negb (char_in c filter)) item.

Fixpoint alternates (filter : list char) (items : list (list char)) : bool :=
  match items with
  | [] => true
  | item :: rest =>
      if is_sep filter item then alternates filter rest
      else is_word filter item
           && match rest with
              | nxt :: _ => is_sep filter nxt
              | [] => false
              end
           && alternates filter rest
  end.

(** The invariant of the columns of a line. *)
Definition row_inv (r : Categorize.row) : Prop :=
  (Categorize.abstract r = false ->
   Categorize.abs_start r = (-1)%Z /\ Categorize.abs_end r = (-1)%Z) /\
  (Categorize.abstract r = true ->
   (0 <= Categorize.abs_start r < Categorize.abs_end r)%Z) /\
  (Categorize.doc r = false ->
   Categorize.doc_start r = (-1)%Z /\ Categorize.doc_end r = (-1)%Z) /\
  (Categorize.doc r = true ->
   (0 <= Categorize.doc_start r < Categorize.doc_end r)%Z) /\
  (Categorize.num_tex r <> 1%Z ->
   Categorize.abstract r = false /\ Categorize.doc r = false) /\
  (0 <= Categorize.num_tex r)%Z /\
  (0 <= Categorize.num_bbl r)%Z /\
  (0 <= Categorize.num_folder r)%Z.

(** The same for the variables of the [try] block. *)
Definition scan_inv (sc : Categorize.scan) : Prop :=
  let '(fa, sa, ea) := Categorize.s_abstract sc in
  let '(fd, sd, ed) := Categorize.s_doc sc in
  (fa = false -> sa = (-1)%Z /\ ea = (-1)%Z) /\
  (fa = true -> (0 <= sa < ea)%Z) /\
  (fd = false -> sd = (-1)%Z /\ ed = (-1)%Z) /\
  (fd = true -> (0 <= sd < ed)%Z).

(** *** States of the scanners

    The values the variables of [check_abstract] hold while it searches,
    and right after it found a command; the same for [check_document]. *)

Module AbstractStates.
Import Abstract.

(** The state while no command has been found, after the text [p]. *)
Definition searching (p : list char) : state :=
  {| word_seqs := [lastn 16 p; lastn 10 p]; term_seq := [];
     command_found := -1; nb_brackets := 0; abstract := false;
     index := Z.of_nat (length p); start := -1; end_ := -1 |}.

(** The states right after a command was found at the character [c] that
    follows the text [p]. *)
Definition found_begin (p : list char) (c : char) : state :=
  {| word_seqs := [lastn 16 (p ++ [c]); lastn 10 (p ++ [c])];
     term_seq := [c]; command_found := 0; nb_brackets := 0;
     abstract := true; index := Z.of_nat (length p) + 1;
     start := Z.of_nat (length p) + 1 - 16; end_ := -1 |}.

Definition found_brace (p : list char) (c : char) : state :=
  {| word_seqs := [lastn 16 (p ++ [c]); lastn 10 (p ++ [c])];
     term_seq := []; command_found := 1; nb_brackets := 1;
     abstract := true; index := Z.of_nat (length p) + 1;
     start := Z.of_nat (length p) + 1 - 10; end_ := -1 |}.

(** What one character adds to the brace counter. *)
Definition delta (c : char) : Z :=
  (if N.eqb c lbrace then 1 else 0) - (if N.eqb c rbrace then 1 else 0).

End AbstractStates.

Module DocumentStates.
Import Document.

(** The state while [\begin{document}] has not been found, after the text
    [p], and the state right after it was found at the character [c]. *)
Definition doc_searching (p : list char) : state :=
  {| word_seq := lastn 16 p; term_seq := []; doc := false;
     index := Z.of_nat (length p); start := -1; end_ := -1 |}.

Definition doc_found (p : list char) (c : char) : state :=
  {| word_seq := lastn 16 (p ++ [c]); term_seq := [c]; doc := true;
     index := Z.of_nat (length p) + 1;
     start := Z.of_nat (length p) + 1 - 16; end_ := -1 |}.

End DocumentStates.

(** ** Lists of characters *)

Lemma list_eqb_eq (a b : list char) : list_eqb a b = true <-> a = b.
Proof.
  revert b; induction a as [|x a IH]; intros [|y b]; simpl;
    try (split; [discriminate | congruence]); [tauto|].
  rewrite andb_true_iff, N.eqb_eq, IH.
  split; [intros [-> ->]; reflexivity | intros E; injection E; auto].
Qed.

Lemma list_eqb_refl (a : list char) : list_eqb a a = true.
Proof. apply list_eqb_eq; reflexivity. Qed.

Lemma list_eqb_neq (a b : list char) : a <> b -> list_eqb a b = false.
Proof.
  intros H; destruct (list_eqb a b) eqn:E; [|reflexivity].
  apply list_eqb_eq in E; contradiction.
Qed.

Lemma list_eqb_length (a b : list char) :
  length a <> length b -> list_eqb a b = false.
Proof. intros H; apply list_eqb_neq; intros ->; apply H; reflexivity. Qed.

Lemma prefixb_spec (pat l : list char) :
  prefixb pat l = true <-> exists v, l = pat ++ v.
Proof.
  revert l; induction pat as [|x pat IH]; intros l; simpl.
  - split; [intros _; exists l; reflexivity | reflexivity].
  - destruct l as [|y l].
    + split; [discriminate | intros [v E]; discriminate].
    + rewrite andb_true_iff, N.eqb_eq, IH. split.
      * intros [-> [v ->]]. exists v; reflexivity.
      * intros [v E]. injection E as -> ->. split; [reflexivity | eauto].
Qed.

Lemma occursb_spec (pat l : list char) :
  occursb pat l = true <-> exists u v, l = u ++ pat ++ v.
Proof.
  induction l as [|y l IH]; simpl; rewrite orb_true_iff, prefixb_spec.
  - split.
    + intros [[v E]|F]; [exists [], v; exact E | discriminate].
    + intros [u [v E]]. left. destruct u; [exists v; exact E | discriminate].
  - rewrite IH. split.
    + intros [[v E]|[u [v E]]].
      * exists [], v; exact E.
      * exists (y :: u), v. rewrite E; reflexivity.
    + intros [[|x u] [v E]].
      * left; exists v; exact E.
      * right. injection E as _ E. exists u, v; exact E.
Qed.

Lemma occursb_app_false (pat a b : list char) :
  occursb pat (a ++ b) = false -> occursb pat a = false.
Proof.
  intros H. destruct (occursb pat a) eqn:E; [|reflexivity].
  apply occursb_spec in E. destruct E as [u [v ->]].
  assert (occursb pat ((u ++ pat ++ v) ++ b) = true) as F.
  { apply occursb_spec. exists u, (v ++ b).
    rewrite <- !app_assoc; reflexivity. }
  congruence.
Qed.

(** *** Windows *)

Lemma slide_push (w : nat) (l : list char) (c : char) :
  slide w l c = Ok (push w l c).
Proof.
  unfold slide, push. destruct (w <? length (l ++ [c]))%nat; [|reflexivity].
  destruct l; reflexivity.
Qed.

Lemma lastn_length (n : nat) (l : list char) :
  length (lastn n l) = Nat.min n (length l).
Proof. unfold lastn. rewrite length_skipn. lia. Qed.

Lemma lastn_nil (n : nat) : lastn n [] = [].
Proof. unfold lastn. apply skipn_nil. Qed.

Lemma lastn_short (n : nat) (l : list char) :
  (length l <= n)%nat -> lastn n l = l.
Proof.
  intros H. unfold lastn. replace (length l - n)%nat with 0%nat by lia.
  reflexivity.
Qed.

Lemma lastn_app_eq (pat u : list char) : lastn (length pat) (u ++ pat) = pat.
Proof.
  unfold lastn. rewrite length_app.
  replace (length u + length pat - length pat)%nat with (length u) by lia.
  rewrite skipn_app, skipn_all, Nat.sub_diag. reflexivity.
Qed.

Lemma lastn_suffix (pat p : list char) :
  lastn (length pat) p = pat -> exists u, p = u ++ pat.
Proof.
  intros H. exists (firstn (length p - length pat) p).
  rewrite <- H at 2. unfold lastn. symmetry. apply firstn_skipn.
Qed.

Lemma tl_skipn (k : nat) (l : list char) : tl (skipn k l) = skipn (S k) l.
Proof.
  revert l; induction k as [|k IH]; intros [|x l]; try reflexivity.
  simpl. rewrite IH. destruct l; reflexivity.
Qed.

Lemma push_lastn (w : nat) (p : list char) (c : char) :
  push w (lastn w p) c = lastn w (p ++ [c]).
Proof.
  unfold push. cbv zeta. rewrite length_app, lastn_length. simpl length.
  unfold lastn. rewrite length_app. simpl length.
  destruct (Nat.ltb_spec w (Nat.min w (length p) + 1)) as [H|H].
  - assert (w <= length p)%nat as Hw by lia.
    replace (length p + 1 - w)%nat with (S (length p - w)) by lia.
    rewrite <- tl_skipn, skipn_app.
    replace (length p - w - length p)%nat with 0%nat by lia. reflexivity.
  - replace (length p - w)%nat with 0%nat by lia.
    replace (length p + 1 - w)%nat with 0%nat by lia. reflexivity.
Qed.

(** A window of size 1 or more ends with the character it just took. *)
Lemma push_ends (w : nat) (l : list char) (c : char) :
  (1 <= w)%nat -> exists l', push w l c = l' ++ [c].
Proof.
  intros Hw. unfold push. cbv zeta.
  destruct (Nat.ltb_spec w (length (l ++ [c]))) as [H|H].
  - destruct l as [|y l].
    + cbn in H. lia.
    + exists l. reflexivity.
  - exists l. reflexivity.
Qed.

(** A window that equals the literal: the text read so far ends with it. *)
Lemma window_match (pat p : list char) :
  list_eqb (lastn (length pat) p) pat = true <-> exists u, p = u ++ pat.
Proof.
  rewrite list_eqb_eq. split; [apply lastn_suffix|].
  intros [u ->]. apply lastn_app_eq.
Qed.

Lemma window_hit (n : nat) (pat u : list char) :
  length pat = n -> list_eqb (lastn n (u ++ pat)) pat = true.
Proof. intros <-. apply window_match. exists u. reflexivity. Qed.

(** A window that matches is full: at least [n] characters were read. *)
Lemma window_full (n : nat) (pat p : list char) :
  length pat = n -> list_eqb (lastn n p) pat = true -> (n <= length p)%nat.
Proof.
  intros <- H. apply list_eqb_eq in H.
  apply (f_equal (@length char)) in H. rewrite lastn_length in H. lia.
Qed.

(** No occurrence in [p ++ q]: the window does not match after any prefix. *)
Lemma window_no_match (n : nat) (pat p q r : list char) :
  length pat = n ->
  occursb pat (p ++ q ++ r) = false ->
  list_eqb (lastn n (p ++ q)) pat = false.
Proof.
  intros <- H. destruct (list_eqb _ pat) eqn:E; [|reflexivity].
  apply window_match in E. destruct E as [u E].
  assert (occursb pat (p ++ q ++ r) = true) as F.
  { apply occursb_spec. exists u, r.
    rewrite app_assoc, E, <- app_assoc. reflexivity. }
  congruence.
Qed.

(** *** Literals that cannot overlap *)

Lemma backslash_head_inv (x : char) (l : list char) :
  backslash_head (x :: l) = true -> x = backslash /\ ~ In backslash l.
Proof.
  cbn [backslash_head]. rewrite andb_true_iff, N.eqb_eq, negb_true_iff.
  intros [-> H]. split; [reflexivity|]. intros I.
  assert (existsb (N.eqb backslash) l = true) as E.
  { apply existsb_exists. exists backslash. split; [exact I|].
    apply N.eqb_refl. }
  congruence.
Qed.

(** A literal [pat] does not begin in the text [pre] and end in the
    fragment [x] that follows it, when both start with their only
    backslash. *)
Lemma occursb_overlap (pat x pre : list char) :
  backslash_head pat = true ->
  backslash_head x = true ->
  prefixb pat x = false ->
  occursb pat pre = false ->
  occursb pat (pre ++ x) = false.
Proof.
  intros Hp Hx Hpre Ho.
  destruct (occursb pat (pre ++ x)) eqn:E; [|reflexivity]. exfalso.
  apply occursb_spec in E. destruct E as [u [v E]].
  assert (forall w, x <> pat ++ w) as Npre.
  { intros w ->.
    assert (prefixb pat (pat ++ w) = true) as F
        by (apply prefixb_spec; eauto).
    congruence. }
  assert (forall a b, pre <> a ++ pat ++ b) as Nocc.
  { intros a b ->.
    assert (occursb pat (a ++ pat ++ b) = true) as F
        by (apply occursb_spec; eauto).
    congruence. }
  destruct pat as [|h pat]; [discriminate|].
  destruct x as [|g x]; [discriminate|].
  apply backslash_head_inv in Hp. destruct Hp as [-> Hp].
  apply backslash_head_inv in Hx. destruct Hx as [-> Hx].
  apply app_eq_app in E. destruct E as [l [[E1 E2]|[E1 E2]]].
  - (* the occurrence starts in [pre] *)
    symmetry in E2. apply app_eq_app in E2.
    destruct E2 as [m [[E3 E4]|[E3 E4]]].
    + (* ... and ends with [pre]: it lies in [pre] *)
      apply (Nocc u m). rewrite E1, E3. reflexivity.
    + (* ... and runs into [x] *)
      destruct l as [|a l].
      * cbn [app] in E3. apply (Npre v). rewrite E3. exact E4.
      * destruct m as [|b m].
        -- rewrite app_nil_r in E3. apply (Nocc u []).
           rewrite E1, <- E3, app_nil_r. reflexivity.
        -- cbn [app] in E3, E4. injection E3 as _ E3.
           injection E4 as E4 _. subst b.
           apply Hp. rewrite E3. apply in_or_app. right. left. reflexivity.
  - (* the occurrence starts in [x] *)
    destruct l as [|a l].
    + cbn [app] in E2. apply (Npre v). exact E2.
    + cbn [app] in E2. injection E2 as _ E2.
      apply Hx. rewrite E2. apply in_or_app. right. left. reflexivity.
Qed.

(** A literal does not occur across a first character that is not its
    own. *)
Lemma occursb_cons_other (pat l : list char) (c : char) :
  backslash_head pat = true -> c <> backslash ->
  occursb pat l = false -> occursb pat (c :: l) = false.
Proof.
  intros Hp Hc Ho. cbn [occursb]. rewrite Ho, orb_false_r.
  destruct pat as [|h pat]; [discriminate|].
  apply backslash_head_inv in Hp. destruct Hp as [-> _].
  cbn [prefixb]. destruct (N.eqb_spec backslash c); [congruence|reflexivity].
Qed.

(** ** The loop and the generator *)

Section LoopFacts.

Variable state : Type.
Variable body : char -> state -> res (state + bool * Z * Z).

Lemma next_yield (p rest : list char) (c : char) :
  next {| contents := p ++ c :: rest; pos := length p |} =
  Yield c {| contents := p ++ c :: rest; pos := S (length p) |}.
Proof.
  unfold next, getitem; simpl contents; simpl pos.
  rewrite length_app; simpl length.
  destruct (Z.leb_spec (Z.of_nat (length p))
              (Z.of_nat (length p + S (length rest)) - 1)) as [_|H];
    [|lia].
  rewrite nth_error_app2, Nat.sub_diag by lia. reflexivity.
Qed.

Lemma next_stop (g : gen) :
  (length (contents g) <= pos g)%nat -> next g = StopIteration.
Proof.
  intros H. unfold next.
  destruct (Z.leb_spec (Z.of_nat (pos g))
              (Z.of_nat (length (contents g)) - 1)); [lia | reflexivity].
Qed.

(** An iteration that goes on has taken exactly one character, the one at
    the generator's position, and left the generator one position on. *)
Lemma iter_consumes (st st' : state) (g g' : gen) :
  iter body st g = Ok (Continue st' g') ->
  contents g' = contents g /\ pos g' = S (pos g) /\
  (pos g < length (contents g))%nat.
Proof.
  unfold iter, next.
  destruct (Z.leb_spec (Z.of_nat (pos g))
              (Z.of_nat (length (contents g)) - 1)) as [H|H];
    [|discriminate].
  destruct (getitem (contents g) (pos g)); [|discriminate].
  destruct (body a st) as [[s|t]|e]; simpl; try discriminate.
  intros E; injection E as _ <-. simpl. repeat split; lia.
Qed.

Lemma next_in_order (d : list char) (n : nat) :
  yields_in_order d n (next {| contents := d; pos := n |}).
Proof.
  unfold next, getitem, yields_in_order. cbn [contents pos].
  destruct (Z.leb_spec (Z.of_nat n) (Z.of_nat (length d) - 1)) as [H|H];
    [|lia].
  destruct (nth_error d n) as [c|] eqn:E; [split; reflexivity|].
  apply nth_error_None in E. lia.
Qed.

(** On an exhausted generator the iteration returns. *)
Lemma iter_exhausted (st : state) (g : gen) :
  (length (contents g) <= pos g)%nat ->
  iter body st g = Ok (Return (false, -1, -1)%Z).
Proof. intros H. unfold iter. rewrite next_stop by exact H. reflexivity. Qed.

(** With fuel for every character left and one more iteration, the loop
    is [run] on the characters left. *)
Lemma loop_run (rest : list char) :
  forall (p : list char) (st : state) (fuel : nat),
    (length rest < fuel)%nat ->
    loop body fuel st {| contents := p ++ rest; pos := length p |} =
    run body st rest.
Proof.
  induction rest as [|c rest IH]; intros p st [|fuel] Hf;
    simpl in Hf; try lia.
  - simpl. rewrite iter_exhausted; [reflexivity|].
    simpl. rewrite length_app. simpl. lia.
  - simpl. unfold iter. rewrite next_yield.
    destruct (body c st) as [[st'|t]|e]; simpl; try reflexivity.
    specialize (IH (p ++ [c]) st' fuel).
    rewrite <- app_assoc, length_app, Nat.add_1_r in IH. simpl in IH.
    apply IH. lia.
Qed.

(** A run that returns does so at its [n]-th iteration, for an [n] that
    is at most the number of characters left plus one: less fuel does
    not reach the return, more is not used. *)
Lemma loop_iterations (rest : list char) :
  forall (p : list char) (st : state) (r : bool * Z * Z),
    run body st rest = Returned r ->
    exists n : nat,
      (1 <= n <= S (length rest))%nat /\
      (forall fuel, (n <= fuel)%nat ->
         loop body fuel st {| contents := p ++ rest; pos := length p |} =
         Returned r) /\
      (forall fuel, (fuel < n)%nat ->
         loop body fuel st {| contents := p ++ rest; pos := length p |} =
         OutOfFuel).
Proof.
  induction rest as [|c rest IH]; intros p st r H.
  - exists 1%nat. cbn [run] in H. injection H as <-.
    split; [cbn; lia|]. split.
    + intros [|fuel] Hf; [lia|]. cbn [loop].
      rewrite iter_exhausted; [reflexivity|].
      cbn. rewrite length_app. cbn. lia.
    + intros [|fuel] Hf; [reflexivity | lia].
  - cbn [run] in H.
    assert (forall fuel,
              loop body (S fuel) st
                {| contents := p ++ c :: rest; pos := length p |} =
              match body c st with
              | Raise e => Raised e
              | Ok (inr t) => Returned t
              | Ok (inl st') =>
                  loop body fuel st'
                    {| contents := (p ++ [c]) ++ rest;
                       pos := length (p ++ [c]) |}
              end) as Hstep.
    { intros fuel. cbn [loop]. unfold iter. rewrite next_yield.
      destruct (body c st) as [[st'|t]|e]; cbn [bind]; try reflexivity.
      rewrite <- app_assoc, length_app, Nat.add_1_r. reflexivity. }
    destruct (body c st) as [[st'|t]|e]; try discriminate.
    + destruct (IH (p ++ [c]) st' r H) as [n [Hn [Hge Hlt]]].
      exists (S n). split; [cbn [length]; lia|]. split.
      * intros [|fuel] Hf; [lia|]. rewrite Hstep. apply Hge. lia.
      * intros [|fuel] Hf; [reflexivity|]. rewrite Hstep. apply Hlt. lia.
    + injection H as <-. exists 1%nat. split; [cbn [length]; lia|]. split.
      * intros [|fuel] Hf; [lia|]. rewrite Hstep. reflexivity.
      * intros [|fuel] Hf; [reflexivity | lia].
Qed.

End LoopFacts.

Lemma check_abstract_run (d : list char) :
  check_abstract d = run Abstract.body Abstract.init d.
Proof.
  unfold check_abstract, Abstract.check_abstract_fuel, char_gen.
  apply (loop_run _ Abstract.body d []). lia.
Qed.

Lemma check_document_run (d : list char) :
  check_document d = run Document.body Document.init d.
Proof.
  unfold check_document, Document.check_document_fuel, char_gen.
  apply (loop_run _ Document.body d []). lia.
Qed.

(** ** check_abstract, step by step *)

Module AbstractFacts.
Import Abstract AbstractStates.

Lemma length_begin_abstract : length begin_abstract = 16%nat.
Proof. reflexivity. Qed.
Lemma length_abstract_brace : length abstract_brace = 10%nat.
Proof. reflexivity. Qed.
Lemma length_end_abstract : length end_abstract = 14%nat.
Proof. reflexivity. Qed.

Lemma init_searching : init = searching [].
Proof. reflexivity. Qed.

(** [\abstract{] ends with the opening brace. *)
Lemma abstract_brace_last :
  abstract_brace = str "\abstract" ++ [lbrace].
Proof. reflexivity. Qed.

Lemma begin_abstract_last :
  begin_abstract = str "\begin{abstract" ++ [rbrace].
Proof. reflexivity. Qed.

Local Opaque begin_abstract abstract_brace end_abstract.

(** The body of the [for] loop at the first window. *)
Lemma search_one_0 (st : state) (w0 w1 : list char) (c : char) :
  word_seqs st = [w0; w1] ->
  search_one c st 0 =
  Ok (let st' := set_word_seqs st [push 16 w0 c; w1] in
      if list_eqb (push 16 w0 c) begin_abstract then arm st' 16 0 else st').
Proof.
  intros H. unfold search_one. rewrite H.
  cbn [getitem nth_error bind list_index]. rewrite list_eqb_refl.
  cbn [bind commands nth_error getitem].
  rewrite length_begin_abstract, slide_push. cbn [bind set_nth].
  destruct (list_eqb (push 16 w0 c) begin_abstract); reflexivity.
Qed.

(** At the second window, whose position [index] finds by value. *)
Lemma search_one_1 (st : state) (w0 w1 : list char) (c : char) :
  word_seqs st = [w0; w1] ->
  list_eqb w0 w1 = false ->
  search_one c st 1 =
  Ok (let st' := set_word_seqs st [w0; push 10 w1 c] in
      if list_eqb (push 10 w1 c) abstract_brace then arm st' 10 1 else st').
Proof.
  intros H D. unfold search_one. rewrite H.
  cbn [getitem nth_error bind list_index]. rewrite D, list_eqb_refl.
  cbn [bind commands nth_error getitem].
  rewrite length_abstract_brace, slide_push. cbn [bind set_nth].
  destruct (list_eqb (push 10 w1 c) abstract_brace); reflexivity.
Qed.

(** When the two windows hold the same text, [index] answers 0 for the
    second one too, and it is slid and compared as the first command's. *)
Lemma search_one_1_same (st : state) (w0 w1 : list char) (c : char) :
  word_seqs st = [w0; w1] ->
  list_eqb w0 w1 = true ->
  search_one c st 1 =
  Ok (let st' := set_word_seqs st [w0; push 16 w1 c] in
      if list_eqb (push 16 w1 c) begin_abstract then arm st' 16 0 else st').
Proof.
  intros H D. unfold search_one. rewrite H.
  cbn [getitem nth_error bind list_index]. rewrite D.
  cbn [bind commands nth_error getitem].
  rewrite length_begin_abstract, slide_push. cbn [bind set_nth].
  destruct (list_eqb (push 16 w1 c) begin_abstract); reflexivity.
Qed.

Lemma search_two (st : state) (w0 w1 : list char) (c : char) :
  word_seqs st = [w0; w1] ->
  search c st = st' <- search_one c st 0 ;; search_one c st' 1.
Proof.
  intros H. unfold search. rewrite H. cbn [length seq for_each].
  destruct (search_one c st 0); [|reflexivity].
  cbn [bind]. destruct (search_one c a 1); reflexivity.
Qed.

(** After the first window slid, the two windows differ in length. *)
Lemma windows_differ (p : list char) (c : char) :
  list_eqb (lastn 16 (p ++ [c])) (lastn 10 p) = false.
Proof.
  apply list_eqb_length. rewrite !lastn_length, length_app.
  cbn [length]. lia.
Qed.

(** The [for] loop on a searching state: both windows slide; the command
    whose window matches is armed, the later one of the list last. *)
Lemma search_searching (p : list char) (c : char) (i : Z) :
  search c (set_index (searching p) i) =
  let p' := p ++ [c] in
  let st := set_index (searching p') i in
  Ok (if list_eqb (lastn 10 p') abstract_brace then arm st 10 1
      else if list_eqb (lastn 16 p') begin_abstract then arm st 16 0
      else st).
Proof.
  rewrite (@search_two _ (lastn 16 p) (lastn 10 p)) by reflexivity.
  rewrite (@search_one_0 _ (lastn 16 p) (lastn 10 p)) by reflexivity.
  cbn [bind]. cbv zeta. rewrite push_lastn.
  destruct (list_eqb (lastn 16 (p ++ [c])) begin_abstract).
  - rewrite (@search_one_1 _ (lastn 16 (p ++ [c])) (lastn 10 p))
      by (reflexivity || apply windows_differ).
    cbv zeta. rewrite push_lastn.
    destruct (list_eqb (lastn 10 (p ++ [c])) abstract_brace); reflexivity.
  - rewrite (@search_one_1 _ (lastn 16 (p ++ [c])) (lastn 10 p))
      by (reflexivity || apply windows_differ).
    cbv zeta. rewrite push_lastn.
    destruct (list_eqb (lastn 10 (p ++ [c])) abstract_brace); reflexivity.
Qed.

Lemma terminate_keyword (c : char) (st : state) :
  command_found st = 0%Z ->
  terminate c st =
  let ts := push 14 (term_seq st) c in
  if list_eqb ts end_abstract
  then Ok (inr (abstract st, start st, index st))
  else Ok (inl (set_term_seq st ts)).
Proof.
  intros H. unfold terminate. rewrite H.
  cbn [Z.eqb terminates getitem nth_error bind].
  rewrite length_end_abstract, slide_push. cbn [bind]. cbv zeta.
  destruct (list_eqb (push 14 (term_seq st) c) end_abstract); reflexivity.
Qed.

Lemma terminate_brace (c : char) (st : state) :
  command_found st = 1%Z ->
  terminate c st =
  let nb := (nb_brackets st + delta c)%Z in
  if (nb <=? 0)%Z
  then Ok (inr (abstract st, start st, index st))
  else Ok (inl (set_nb_brackets st nb)).
Proof.
  intros H. unfold terminate, delta. rewrite H. cbn [Z.eqb]. cbv zeta.
  destruct st as [ws ts cf nb ab ix sa en]. cbn in H |- *.
  destruct (N.eqb_spec c lbrace) as [->|Hl].
  - replace (N.eqb lbrace rbrace) with false by reflexivity.
    replace (nb + (1 - 0))%Z with (nb + 1)%Z by lia.
    cbn -[Z.add Z.sub Z.leb].
    destruct (nb + 1 <=? 0)%Z; reflexivity.
  - destruct (N.eqb_spec c rbrace) as [->|Hr].
    + replace (nb + (0 - 1))%Z with (nb - 1)%Z by lia.
      replace (N.eqb rbrace lbrace) with false by reflexivity.
      cbn -[Z.add Z.sub Z.leb].
      destruct (nb - 1 <=? 0)%Z; reflexivity.
    + replace (nb + (0 - 0))%Z with nb by lia.
      cbn -[Z.add Z.sub Z.leb].
      destruct (nb <=? 0)%Z; reflexivity.
Qed.

Lemma body_keyword (c : char) (st : state) :
  abstract st = true -> command_found st = 0%Z ->
  body c st =
  let ts := push 14 (term_seq st) c in
  if list_eqb ts end_abstract
  then Ok (inr (true, start st, (index st + 1)%Z))
  else Ok (inl (set_term_seq (set_index st (index st + 1)) ts)).
Proof.
  intros Ha Hc. unfold body. cbv zeta.
  cbn [abstract set_index]. rewrite Ha. cbn [negb bind].
  cbn [abstract set_index]. rewrite Ha.
  rewrite terminate_keyword by exact Hc. cbv zeta.
  cbn [abstract set_index term_seq start index]. rewrite Ha. reflexivity.
Qed.

Lemma body_brace (c : char) (st : state) :
  abstract st = true -> command_found st = 1%Z ->
  body c st =
  let nb := (nb_brackets st + delta c)%Z in
  if (nb <=? 0)%Z
  then Ok (inr (true, start st, (index st + 1)%Z))
  else Ok (inl (set_nb_brackets (set_index st (index st + 1)) nb)).
Proof.
  intros Ha Hc. unfold body. cbv zeta.
  cbn [abstract set_index]. rewrite Ha. cbn [negb bind].
  cbn [abstract set_index]. rewrite Ha.
  rewrite terminate_brace by exact Hc. cbv zeta.
  cbn [abstract set_index nb_brackets start index]. rewrite Ha.
  reflexivity.
Qed.

Lemma brace_window_last (p : list char) (c : char) :
  list_eqb (lastn 10 (p ++ [c])) abstract_brace = true -> c = lbrace.
Proof.
  rewrite <- length_abstract_brace. intros H.
  apply window_match in H. destruct H as [u E].
  rewrite abstract_brace_last, app_assoc in E.
  apply app_inj_tail in E. tauto.
Qed.

Lemma begin_window_last (p : list char) (c : char) :
  list_eqb (lastn 16 (p ++ [c])) begin_abstract = true -> c = rbrace.
Proof.
  rewrite <- length_begin_abstract. intros H.
  apply window_match in H. destruct H as [u E].
  rewrite begin_abstract_last, app_assoc in E.
  apply app_inj_tail in E. tauto.
Qed.

(** One pass of the loop body on a searching state. *)
Lemma body_searching (p : list char) (c : char) :
  body c (searching p) =
  if list_eqb (lastn 10 (p ++ [c])) abstract_brace
  then Ok (inl (found_brace p c))
  else if list_eqb (lastn 16 (p ++ [c])) begin_abstract
       then Ok (inl (found_begin p c))
       else Ok (inl (searching (p ++ [c]))).
Proof.
  unfold body. cbv zeta.
  replace (abstract (set_index (searching p) (index (searching p) + 1)))
    with false by reflexivity.
  cbn [negb]. rewrite search_searching. cbv zeta. cbn [bind].
  destruct (list_eqb (lastn 10 (p ++ [c])) abstract_brace) eqn:E1.
  - apply brace_window_last in E1. subst c.
    cbn [arm abstract]. rewrite terminate_brace by reflexivity.
    reflexivity.
  - destruct (list_eqb (lastn 16 (p ++ [c])) begin_abstract) eqn:E0.
    + cbn [arm abstract]. rewrite terminate_keyword by reflexivity.
      cbv zeta.
      replace (list_eqb _ end_abstract) with false; [reflexivity|].
      symmetry. apply list_eqb_length. rewrite length_end_abstract.
      cbn. lia.
    + cbn [set_index searching abstract]. unfold searching.
      rewrite length_app, Nat2Z.inj_add. reflexivity.
Qed.

(** *** The three phases of a run *)

(** Searching: while neither command occurs, the state stays the
    searching one. *)
Lemma run_searching (q : list char) :
  forall p rest : list char,
    occursb begin_abstract (p ++ q) = false ->
    occursb abstract_brace (p ++ q) = false ->
    run body (searching p) (q ++ rest) = run body (searching (p ++ q)) rest.
Proof.
  induction q as [|c q IH]; intros p rest H0 H1.
  - rewrite app_nil_r. reflexivity.
  - cbn [app run]. rewrite body_searching.
    rewrite (@window_no_match 10 _ p [c] q length_abstract_brace) by exact H1.
    rewrite (@window_no_match 16 _ p [c] q length_begin_abstract) by exact H0.
    replace (p ++ c :: q) with ((p ++ [c]) ++ q)
      by (rewrite <- app_assoc; reflexivity).
    apply IH; rewrite <- app_assoc; assumption.
Qed.

(** After [\begin{abstract}]: [t] is the text since the command's last
    character, that character included. *)
Lemma run_keyword (q : list char) :
  forall (t : list char) (st : state) (rest : list char),
    abstract st = true -> command_found st = 0%Z ->
    term_seq st = lastn 14 t ->
    occursb end_abstract (t ++ q) = false ->
    exists st',
      run body st (q ++ rest) = run body st' rest /\
      abstract st' = true /\ command_found st' = 0%Z /\
      term_seq st' = lastn 14 (t ++ q) /\
      start st' = start st /\
      index st' = (index st + Z.of_nat (length q))%Z.
Proof.
  induction q as [|c q IH]; intros t st rest Ha Hc Ht Ho.
  - exists st. rewrite app_nil_r. cbn [app length Z.of_nat].
    rewrite Z.add_0_r. repeat split; assumption.
  - cbn [app run]. rewrite body_keyword by assumption. cbv zeta.
    rewrite Ht, push_lastn.
    rewrite (@window_no_match 14 _ t [c] q length_end_abstract) by exact Ho.
    destruct (IH (t ++ [c])
                (set_term_seq (set_index st (index st + 1))
                   (lastn 14 (t ++ [c]))) rest)
      as [st' [R [Ha' [Hc' [Ht' [Hs' Hi']]]]]]; try assumption.
    + reflexivity.
    + rewrite <- app_assoc. exact Ho.
    + exists st'. rewrite R. cbn [start index set_term_seq set_index] in *.
      rewrite <- app_assoc in Ht'. cbn [app] in Ht'.
      repeat split; try assumption.
      rewrite Hi'. cbn [length]. lia.
Qed.

Lemma step_keyword (c : char) (t : list char) (st : state) :
  abstract st = true -> command_found st = 0%Z ->
  term_seq st = lastn 14 t ->
  list_eqb (lastn 14 (t ++ [c])) end_abstract = true ->
  body c st = Ok (inr (true, start st, (index st + 1)%Z)).
Proof.
  intros Ha Hc Ht Hm. rewrite body_keyword by assumption. cbv zeta.
  rewrite Ht, push_lastn, Hm. reflexivity.
Qed.

Lemma balance_cons (c : char) (l : list char) :
  balance (c :: l) = (delta c + balance l)%Z.
Proof.
  unfold balance, count, delta. cbn [count_occ].
  destruct (N.eq_dec c lbrace) as [->|Hl].
  - replace (N.eqb lbrace rbrace) with false by reflexivity.
    rewrite N.eqb_refl.
    destruct (N.eq_dec lbrace rbrace); [discriminate | lia].
  - destruct (N.eqb_spec c lbrace); [contradiction|].
    destruct (N.eq_dec c rbrace) as [->|Hr].
    + rewrite N.eqb_refl. lia.
    + destruct (N.eqb_spec c rbrace); [contradiction | lia].
Qed.

(** After [\abstract{]: while the depth stays positive the loop goes
    on and the counter follows the balance. *)
Lemma run_brace (q : list char) :
  forall (st : state) (rest : list char),
    abstract st = true -> command_found st = 1%Z ->
    (forall k, (1 <= k <= length q)%nat ->
               (0 < nb_brackets st + balance (firstn k q))%Z) ->
    exists st',
      run body st (q ++ rest) = run body st' rest /\
      abstract st' = true /\ command_found st' = 1%Z /\
      nb_brackets st' = (nb_brackets st + balance q)%Z /\
      start st' = start st /\
      index st' = (index st + Z.of_nat (length q))%Z.
Proof.
  induction q as [|c q IH]; intros st rest Ha Hc Hd.
  - exists st. cbn [app length Z.of_nat].
    replace (balance []) with 0%Z by reflexivity.
    rewrite !Z.add_0_r. repeat split; assumption.
  - cbn [app run]. rewrite body_brace by assumption. cbv zeta.
    assert (0 < nb_brackets st + delta c)%Z as Hpos.
    { specialize (Hd 1%nat). cbn [firstn length] in Hd.
      rewrite balance_cons in Hd.
      replace (balance []) with 0%Z in Hd by reflexivity. lia. }
    destruct (Z.leb_spec (nb_brackets st + delta c) 0) as [F|_]; [lia|].
    destruct (IH (set_nb_brackets (set_index st (index st + 1))
                    (nb_brackets st + delta c)) rest)
      as [st' [R [Ha' [Hc' [Hn' [Hs' Hi']]]]]]; try assumption.
    + intros k Hk. cbn [nb_brackets set_nb_brackets].
      specialize (Hd (S k)). cbn [firstn length] in Hd.
      rewrite balance_cons in Hd. lia.
    + exists st'. rewrite R.
      cbn [start index nb_brackets set_nb_brackets set_index] in *.
      rewrite balance_cons. cbn [length].
      repeat split; try assumption; lia.
Qed.

(** *** Every run returns, and what it returns *)

Lemma run_found (rest : list char) :
  forall st : state,
    abstract st = true ->
    command_found st = 0%Z \/ command_found st = 1%Z ->
    (0 <= start st < index st)%Z ->
    exists r,
      run body st rest = Returned r /\
      scan_result_inv (index st + Z.of_nat (length rest)) r.
Proof.
  induction rest as [|c rest IH]; intros st Ha Hc Hs.
  - exists (false, -1, -1)%Z. split; [reflexivity|].
    cbn. split; [auto | discriminate].
  - cbn [run length]. destruct Hc as [Hc|Hc].
    + rewrite body_keyword by assumption. cbv zeta.
      destruct (list_eqb _ end_abstract).
      * eexists; split; [reflexivity|]. cbn.
        split; [discriminate | intros _; lia].
      * destruct (IH (set_term_seq (set_index st (index st + 1))
                        (push 14 (term_seq st) c))) as [r [R I]];
          cbn [abstract command_found start index set_term_seq set_index];
          auto; try lia.
        exists r. split; [exact R|].
        cbn [index set_term_seq set_index] in I.
        replace (index st + Z.of_nat (S (length rest)))%Z
          with (index st + 1 + Z.of_nat (length rest))%Z by lia.
        exact I.
    + rewrite body_brace by assumption. cbv zeta.
      destruct (nb_brackets st + delta c <=? 0)%Z.
      * eexists; split; [reflexivity|]. cbn.
        split; [discriminate | intros _; lia].
      * destruct (IH (set_nb_brackets (set_index st (index st + 1))
                        (nb_brackets st + delta c))) as [r [R I]];
          cbn [abstract command_found start index
                 set_nb_brackets set_index];
          auto; try lia.
        exists r. split; [exact R|].
        cbn [index set_nb_brackets set_index] in I.
        replace (index st + Z.of_nat (S (length rest)))%Z
          with (index st + 1 + Z.of_nat (length rest))%Z by lia.
        exact I.
Qed.

Lemma run_total (rest : list char) :
  forall p : list char,
    exists r,
      run body (searching p) rest = Returned r /\
      scan_result_inv (Z.of_nat (length p + length rest)) r.
Proof.
  induction rest as [|c rest IH]; intros p.
  - exists (false, -1, -1)%Z. split; [reflexivity|].
    cbn. split; [auto | discriminate].
  - cbn [run length]. rewrite body_searching.
    destruct (list_eqb (lastn 10 (p ++ [c])) abstract_brace) eqn:E1.
    + apply (@window_full 10 _ _ length_abstract_brace) in E1.
      rewrite length_app in E1. cbn [length] in E1.
      destruct (run_found rest (found_brace p c)) as [r [R I]];
        cbn [abstract command_found start index found_brace];
        auto; try lia.
      exists r. split; [exact R|].
      cbn [index found_brace] in I.
      replace (Z.of_nat (length p + S (length rest)))
        with (Z.of_nat (length p) + 1 + Z.of_nat (length rest))%Z by lia.
      exact I.
    + destruct (list_eqb (lastn 16 (p ++ [c])) begin_abstract) eqn:E0.
      * apply (@window_full 16 _ _ length_begin_abstract) in E0.
        rewrite length_app in E0. cbn [length] in E0.
        destruct (run_found rest (found_begin p c)) as [r [R I]];
          cbn [abstract command_found start index found_begin];
          auto; try lia.
        exists r. split; [exact R|].
        cbn [index found_begin] in I.
        replace (Z.of_nat (length p + S (length rest)))
          with (Z.of_nat (length p) + 1 + Z.of_nat (length rest))%Z by lia.
        exact I.
      * destruct (IH (p ++ [c])) as [r [R I]].
        exists r. split; [exact R|].
        rewrite length_app in I. cbn [length] in I.
        replace (length p + S (length rest))%nat
          with (length p + 1 + length rest)%nat by lia.
        exact I.
Qed.

(** *** From the start of the document to the command *)

Lemma begin_abstract_facts :
  backslash_head begin_abstract = true /\
  backslash_head abstract_brace = true /\
  backslash_head end_abstract = true /\
  backslash_head (str "\begin{abstract") = true /\
  backslash_head (str "\abstract") = true /\
  backslash_head (str "\end{abstract") = true /\
  prefixb begin_abstract (str "\begin{abstract") = false /\
  prefixb abstract_brace (str "\begin{abstract") = false /\
  prefixb begin_abstract (str "\abstract") = false /\
  prefixb abstract_brace (str "\abstract") = false /\
  prefixb end_abstract (str "\end{abstract") = false /\
  end_abstract = str "\end{abstract" ++ [rbrace].
Proof. vm_compute. repeat split. Qed.

(** The first opening literal of the document is [\begin{abstract}]:
    the loop reaches the state [found_begin] at its last character. *)
Lemma run_to_begin (pre rest : list char) :
  occursb begin_abstract pre = false ->
  occursb abstract_brace pre = false ->
  run body init (pre ++ begin_abstract ++ rest) =
  run body (found_begin (pre ++ str "\begin{abstract") rbrace) rest.
Proof.
  intros H0 H1.
  destruct begin_abstract_facts
    as [F0 [F1 [_ [G0 [_ [_ [P00 [P10 _]]]]]]]].
  rewrite init_searching.
  replace (pre ++ begin_abstract ++ rest)
    with ((pre ++ str "\begin{abstract") ++ rbrace :: rest)
    by (rewrite begin_abstract_last, <- !app_assoc; reflexivity).
  rewrite run_searching; cbn [app];
    [|apply occursb_overlap; assumption..].
  cbn [run]. rewrite body_searching.
  destruct (list_eqb (lastn 10 _) abstract_brace) eqn:E1;
    [apply brace_window_last in E1; discriminate|].
  replace ((pre ++ str "\begin{abstract") ++ [rbrace])
    with (pre ++ begin_abstract)
    by (rewrite begin_abstract_last, <- !app_assoc; reflexivity).
  rewrite (@window_hit 16 _ pre length_begin_abstract). reflexivity.
Qed.

(** The first opening literal of the document is [\abstract{]. *)
Lemma run_to_brace (pre rest : list char) :
  occursb begin_abstract pre = false ->
  occursb abstract_brace pre = false ->
  run body init (pre ++ abstract_brace ++ rest) =
  run body (found_brace (pre ++ str "\abstract") lbrace) rest.
Proof.
  intros H0 H1.
  destruct begin_abstract_facts
    as [F0 [F1 [_ [_ [G1 [_ [_ [_ [P01 [P11 _]]]]]]]]]].
  rewrite init_searching.
  replace (pre ++ abstract_brace ++ rest)
    with ((pre ++ str "\abstract") ++ lbrace :: rest)
    by (rewrite abstract_brace_last, <- !app_assoc; reflexivity).
  rewrite run_searching; cbn [app];
    [|apply occursb_overlap; assumption..].
  cbn [run]. rewrite body_searching.
  replace ((pre ++ str "\abstract") ++ [lbrace])
    with (pre ++ abstract_brace)
    by (rewrite abstract_brace_last, <- !app_assoc; reflexivity).
  rewrite (@window_hit 10 _ pre length_abstract_brace). reflexivity.
Qed.

(** *** From the command to the end of the run *)

Lemma run_begin_closed (p body_ post : list char) :
  occursb end_abstract body_ = false ->
  run body (found_begin p rbrace) (body_ ++ end_abstract ++ post) =
  Returned (true, Z.of_nat (length p) + 1 - 16,
            Z.of_nat (length p) + 1 + Z.of_nat (length body_) + 14)%Z.
Proof.
  intros Ho.
  destruct begin_abstract_facts
    as [_ [_ [F2 [_ [_ [G2 [_ [_ [_ [_ [P22 L2]]]]]]]]]]].
  replace (body_ ++ end_abstract ++ post)
    with ((body_ ++ str "\end{abstract") ++ rbrace :: post)
    by (rewrite L2, <- !app_assoc; reflexivity).
  assert (occursb end_abstract
            ([rbrace] ++ body_ ++ str "\end{abstract") = false) as Hq.
  { change ([rbrace] ++ body_ ++ str "\end{abstract")
      with ((rbrace :: body_) ++ str "\end{abstract").
    apply occursb_overlap; try assumption.
    all: apply occursb_cons_other;
      [assumption | discriminate | assumption]. }
  destruct (run_keyword (body_ ++ str "\end{abstract") [rbrace]
              (found_begin p rbrace) (rbrace :: post))
    as [st' [R [Ha [Hc [Ht [Hs Hi]]]]]]; try reflexivity; try assumption.
  rewrite R. cbn [run].
  rewrite (step_keyword rbrace _ st' Ha Hc Ht).
  - rewrite Hs, Hi, length_app. cbn [start index found_begin].
    replace (length (str "\end{abstract")) with 13%nat by reflexivity.
    f_equal. f_equal. lia.
  - replace (([rbrace] ++ body_ ++ str "\end{abstract") ++ [rbrace])
      with ((rbrace :: body_) ++ end_abstract)
      by (rewrite L2; cbn [app]; rewrite <- !app_assoc; reflexivity).
    apply (@window_hit 14 _ (rbrace :: body_) length_end_abstract).
Qed.

Lemma run_begin_open (p rest : list char) :
  occursb end_abstract rest = false ->
  run body (found_begin p rbrace) rest = Returned (false, -1, -1)%Z.
Proof.
  intros Ho.
  destruct begin_abstract_facts as [_ [_ [F2 _]]].
  assert (occursb end_abstract ([rbrace] ++ rest) = false) as Hq.
  { apply occursb_cons_other; [assumption | discriminate | assumption]. }
  destruct (run_keyword rest [rbrace] (found_begin p rbrace) [])
    as [st' [R _]]; try reflexivity; try assumption.
  rewrite app_nil_r in R. rewrite R. reflexivity.
Qed.

Lemma balanced_prefix (l : list char) (k : nat) :
  balanced l = true -> (k <= length l)%nat ->
  (0 <= balance (firstn k l))%Z.
Proof.
  unfold balanced. rewrite andb_true_iff. intros [H _] Hk.
  rewrite forallb_forall in H. apply Z.leb_le. apply H.
  apply in_seq. lia.
Qed.

Lemma balanced_total (l : list char) : balanced l = true -> balance l = 0%Z.
Proof.
  unfold balanced. rewrite andb_true_iff. intros [_ H].
  apply Z.eqb_eq. exact H.
Qed.

Lemma never_closes_prefix (l : list char) (k : nat) :
  never_closes l = true -> (1 <= k <= length l)%nat ->
  (0 < 1 + balance (firstn k l))%Z.
Proof.
  unfold never_closes, closes_at. intros H Hk.
  rewrite forallb_forall in H.
  assert (In k (seq 1 (length l))) as I by (apply in_seq; lia).
  apply H in I. apply negb_true_iff, Z.leb_gt in I. exact I.
Qed.

Lemma run_brace_closed (p body_ post : list char) :
  balanced body_ = true ->
  run body (found_brace p lbrace) (body_ ++ rbrace :: post) =
  Returned (true, Z.of_nat (length p) + 1 - 10,
            Z.of_nat (length p) + 1 + Z.of_nat (length body_) + 1)%Z.
Proof.
  intros Hb.
  assert (forall k, (1 <= k <= length body_)%nat ->
            (0 < nb_brackets (found_brace p lbrace)
                 + balance (firstn k body_))%Z) as Hd.
  { intros k Hk. cbn [nb_brackets found_brace].
    pose proof (@balanced_prefix body_ k Hb). lia. }
  destruct (run_brace body_ (found_brace p lbrace) (rbrace :: post))
    as [st' [R [Ha [Hc [Hn [Hs Hi]]]]]]; try reflexivity; try assumption.
  rewrite R. cbn [run]. rewrite body_brace by assumption. cbv zeta.
  rewrite Hn, Hs, Hi, (balanced_total _ Hb).
  cbn [nb_brackets start index found_brace]. reflexivity.
Qed.

Lemma run_brace_open (p rest : list char) :
  never_closes rest = true ->
  run body (found_brace p lbrace) rest = Returned (false, -1, -1)%Z.
Proof.
  intros Hn.
  assert (forall k, (1 <= k <= length rest)%nat ->
            (0 < nb_brackets (found_brace p lbrace)
                 + balance (firstn k rest))%Z) as Hd.
  { intros k Hk. cbn [nb_brackets found_brace].
    apply never_closes_prefix; assumption. }
  destruct (run_brace rest (found_brace p lbrace) [])
    as [st' [R _]]; try reflexivity; try assumption.
  rewrite app_nil_r in R. rewrite R. reflexivity.
Qed.

(** *** Which command is armed *)

(** The two commands end in different characters, so their windows never
    match at the same character. *)
Lemma commands_never_tie (w0 w1 : list char) (c : char) :
  list_eqb (push 16 w0 c) begin_abstract = true ->
  list_eqb (push 10 w1 c) abstract_brace = false.
Proof.
  intros H0. destruct (list_eqb (push 10 w1 c) abstract_brace) eqn:H1;
    [exfalso | reflexivity].
  apply list_eqb_eq in H0, H1.
  destruct (@push_ends 16 w0 c) as [a Ea]; [lia|].
  destruct (@push_ends 10 w1 c) as [b Eb]; [lia|].
  rewrite Ea, begin_abstract_last in H0. apply app_inj_tail in H0.
  rewrite Eb, abstract_brace_last in H1. apply app_inj_tail in H1.
  destruct H0 as [_ ->]. destruct H1 as [_ H1]. discriminate.
Qed.

(** In the [for] loop of [check_abstract], whenever the window of
    the first-listed command, [\begin{abstract}], completes a match at
    a character, the loop ends with that command armed: [abstract] is
    true, [command_found] is 0 and [start] is [index - 16], whatever the
    second window holds; and the second-listed command does not complete
    a match at that character. *)
Lemma first_listed_command_armed
    (st : state) (w0 w1 : list char) (c : char) :
  word_seqs st = [w0; w1] ->
  list_eqb (push 16 w0 c) begin_abstract = true ->
  list_eqb (push 10 w1 c) abstract_brace = false /\
  exists st',
    search c st = Ok st' /\
    abstract st' = true /\
    command_found st' = 0%Z /\
    start st' = (index st - 16)%Z.
Proof.
  intros Hw Hm. pose proof (commands_never_tie w0 w1 c Hm) as Hn.
  split; [exact Hn|].
  rewrite (search_two st w0 w1 c Hw), (search_one_0 st w0 w1 c Hw).
  cbv zeta.
  rewrite Hm. cbn [bind].
  destruct (list_eqb (push 16 w0 c) w1) eqn:D.
  - rewrite (@search_one_1_same _ (push 16 w0 c) w1 c)
      by (reflexivity || exact D).
    cbv zeta.
    destruct (list_eqb (push 16 w1 c) begin_abstract);
      eexists; (split; [reflexivity|]); repeat split.
  - rewrite (@search_one_1 _ (push 16 w0 c) w1 c)
      by (reflexivity || exact D).
    cbv zeta. rewrite Hn.
    eexists; (split; [reflexivity|]); repeat split.
Qed.

Lemma first_listed_command_armed_witness :
  list_eqb (push 10 (lastn 10 (str "\begin{abstract")) rbrace)
    abstract_brace = false /\
  exists st',
    search rbrace (set_index (searching (str "\begin{abstract")) 16)
    = Ok st' /\
    abstract st' = true /\
    command_found st' = 0%Z /\
    start st' = (16 - 16)%Z.
Proof.
  apply (first_listed_command_armed
           (set_index (searching (str "\begin{abstract")) 16)
           (lastn 16 (str "\begin{abstract"))
           (lastn 10 (str "\begin{abstract")) rbrace).
  - reflexivity.
  - vm_compute. reflexivity.
Defined.

End AbstractFacts.

(** ** check_document, step by step *)

Module DocumentFacts.
Import Document DocumentStates.

Lemma length_begin_document : length begin_document = 16%nat.
Proof. reflexivity. Qed.
Lemma length_end_document : length end_document = 14%nat.
Proof. reflexivity. Qed.

Lemma doc_init_searching : init = doc_searching [].
Proof. reflexivity. Qed.

Local Opaque begin_document end_document.

Lemma doc_terminate_keyword (c : char) (st : state) :
  terminate c st =
  let ts := push 14 (term_seq st) c in
  if list_eqb ts end_document
  then Ok (inr (doc st, start st, index st))
  else Ok (inl (set_term_seq st ts)).
Proof.
  unfold terminate. cbn [terminates getitem nth_error bind].
  rewrite length_end_document, slide_push. cbn [bind]. cbv zeta.
  destruct (list_eqb (push 14 (term_seq st) c) end_document); reflexivity.
Qed.

Lemma body_found (c : char) (st : state) :
  doc st = true ->
  body c st =
  let ts := push 14 (term_seq st) c in
  if list_eqb ts end_document
  then Ok (inr (true, start st, (index st + 1)%Z))
  else Ok (inl (set_term_seq (set_index st (index st + 1)) ts)).
Proof.
  intros Hd. unfold body. cbv zeta.
  cbn [doc set_index]. rewrite Hd. cbn [negb bind].
  cbn [doc set_index]. rewrite Hd.
  rewrite doc_terminate_keyword. cbv zeta.
  cbn [doc set_index term_seq start index]. rewrite Hd. reflexivity.
Qed.

Lemma doc_body_searching (p : list char) (c : char) :
  body c (doc_searching p) =
  if list_eqb (lastn 16 (p ++ [c])) begin_document
  then Ok (inl (doc_found p c))
  else Ok (inl (doc_searching (p ++ [c]))).
Proof.
  unfold body, search. cbv zeta.
  cbn [doc set_index doc_searching negb commands getitem nth_error bind
         word_seq].
  rewrite length_begin_document, slide_push, push_lastn. cbn [bind].
  destruct (list_eqb (lastn 16 (p ++ [c])) begin_document) eqn:E.
  - cbn [bind arm doc set_word_seq index]. rewrite doc_terminate_keyword.
    cbv zeta. cbn [term_seq].
    replace (list_eqb _ end_document) with false; [reflexivity|].
    symmetry. apply list_eqb_length. rewrite length_end_document.
    cbn. lia.
  - cbn [bind doc set_word_seq]. unfold doc_searching.
    rewrite length_app, Nat2Z.inj_add. reflexivity.
Qed.

Lemma doc_run_searching (q : list char) :
  forall p rest : list char,
    occursb begin_document (p ++ q) = false ->
    run body (doc_searching p) (q ++ rest) = run body (doc_searching (p ++ q)) rest.
Proof.
  induction q as [|c q IH]; intros p rest H0.
  - rewrite app_nil_r. reflexivity.
  - cbn [app run]. rewrite doc_body_searching.
    rewrite (@window_no_match 16 _ p [c] q length_begin_document)
      by exact H0.
    replace (p ++ c :: q) with ((p ++ [c]) ++ q)
      by (rewrite <- app_assoc; reflexivity).
    apply IH; rewrite <- app_assoc; assumption.
Qed.

Lemma doc_run_keyword (q : list char) :
  forall (t : list char) (st : state) (rest : list char),
    doc st = true ->
    term_seq st = lastn 14 t ->
    occursb end_document (t ++ q) = false ->
    exists st',
      run body st (q ++ rest) = run body st' rest /\
      doc st' = true /\
      term_seq st' = lastn 14 (t ++ q) /\
      start st' = start st /\
      index st' = (index st + Z.of_nat (length q))%Z.
Proof.
  induction q as [|c q IH]; intros t st rest Hd Ht Ho.
  - exists st. rewrite app_nil_r. cbn [app length Z.of_nat].
    rewrite Z.add_0_r. repeat split; assumption.
  - cbn [app run]. rewrite body_found by assumption. cbv zeta.
    rewrite Ht, push_lastn.
    rewrite (@window_no_match 14 _ t [c] q length_end_document)
      by exact Ho.
    destruct (IH (t ++ [c])
                (set_term_seq (set_index st (index st + 1))
                   (lastn 14 (t ++ [c]))) rest)
      as [st' [R [Hd' [Ht' [Hs' Hi']]]]]; try assumption.
    + reflexivity.
    + rewrite <- app_assoc. exact Ho.
    + exists st'. rewrite R. cbn [start index set_term_seq set_index] in *.
      rewrite <- app_assoc in Ht'. cbn [app] in Ht'.
      repeat split; try assumption.
      rewrite Hi'. cbn [length]. lia.
Qed.

Lemma doc_step_keyword (c : char) (t : list char) (st : state) :
  doc st = true ->
  term_seq st = lastn 14 t ->
  list_eqb (lastn 14 (t ++ [c])) end_document = true ->
  body c st = Ok (inr (true, start st, (index st + 1)%Z)).
Proof.
  intros Hd Ht Hm. rewrite body_found by assumption. cbv zeta.
  rewrite Ht, push_lastn, Hm. reflexivity.
Qed.

Lemma doc_run_found (rest : list char) :
  forall st : state,
    doc st = true ->
    (0 <= start st < index st)%Z ->
    exists r,
      run body st rest = Returned r /\
      scan_result_inv (index st + Z.of_nat (length rest)) r.
Proof.
  induction rest as [|c rest IH]; intros st Hd Hs.
  - exists (false, -1, -1)%Z. split; [reflexivity|].
    cbn. split; [auto | discriminate].
  - cbn [run length]. rewrite body_found by assumption. cbv zeta.
    destruct (list_eqb _ end_document).
    + eexists; split; [reflexivity|]. cbn.
      split; [discriminate | intros _; lia].
    + destruct (IH (set_term_seq (set_index st (index st + 1))
                      (push 14 (term_seq st) c))) as [r [R I]];
        cbn [doc start index set_term_seq set_index]; auto; try lia.
      exists r. split; [exact R|].
      cbn [index set_term_seq set_index] in I.
      replace (index st + Z.of_nat (S (length rest)))%Z
        with (index st + 1 + Z.of_nat (length rest))%Z by lia.
      exact I.
Qed.

Lemma doc_run_total (rest : list char) :
  forall p : list char,
    exists r,
      run body (doc_searching p) rest = Returned r /\
      scan_result_inv (Z.of_nat (length p + length rest)) r.
Proof.
  induction rest as [|c rest IH]; intros p.
  - exists (false, -1, -1)%Z. split; [reflexivity|].
    cbn. split; [auto | discriminate].
  - cbn [run length]. rewrite doc_body_searching.
    destruct (list_eqb (lastn 16 (p ++ [c])) begin_document) eqn:E0.
    + apply (@window_full 16 _ _ length_begin_document) in E0.
      rewrite length_app in E0. cbn [length] in E0.
      destruct (doc_run_found rest (doc_found p c)) as [r [R I]];
        cbn [doc start index doc_found]; auto; try lia.
      exists r. split; [exact R|].
      cbn [index doc_found] in I.
      replace (Z.of_nat (length p + S (length rest)))
        with (Z.of_nat (length p) + 1 + Z.of_nat (length rest))%Z by lia.
      exact I.
    + destruct (IH (p ++ [c])) as [r [R I]].
      exists r. split; [exact R|].
      rewrite length_app in I. cbn [length] in I.
      replace (length p + S (length rest))%nat
        with (length p + 1 + length rest)%nat by lia.
      exact I.
Qed.

Lemma begin_document_facts :
  backslash_head begin_document = true /\
  backslash_head end_document = true /\
  backslash_head (str "\begin{document") = true /\
  backslash_head (str "\end{document") = true /\
  prefixb begin_document (str "\begin{document") = false /\
  prefixb end_document (str "\end{document") = false /\
  begin_document = str "\begin{document" ++ [rbrace] /\
  end_document = str "\end{document" ++ [rbrace].
Proof. vm_compute. repeat split. Qed.

(** The loop reaches the state [found] at the last character of the
    first [\begin{document}]. *)
Lemma doc_run_to_begin (pre rest : list char) :
  occursb begin_document pre = false ->
  run body init (pre ++ begin_document ++ rest) =
  run body (doc_found (pre ++ str "\begin{document") rbrace) rest.
Proof.
  intros H0.
  destruct begin_document_facts as [F0 [_ [G0 [_ [P0 [_ [L0 _]]]]]]].
  rewrite doc_init_searching.
  replace (pre ++ begin_document ++ rest)
    with ((pre ++ str "\begin{document") ++ rbrace :: rest)
    by (rewrite L0, <- !app_assoc; reflexivity).
  rewrite doc_run_searching; cbn [app];
    [|apply occursb_overlap; assumption].
  cbn [run]. rewrite doc_body_searching.
  replace ((pre ++ str "\begin{document") ++ [rbrace])
    with (pre ++ begin_document)
    by (rewrite L0, <- !app_assoc; reflexivity).
  rewrite (@window_hit 16 _ pre length_begin_document). reflexivity.
Qed.

Lemma run_closed (p body_ post : list char) :
  occursb end_document body_ = false ->
  run body (doc_found p rbrace) (body_ ++ end_document ++ post) =
  Returned (true, Z.of_nat (length p) + 1 - 16,
            Z.of_nat (length p) + 1 + Z.of_nat (length body_) + 14)%Z.
Proof.
  intros Ho.
  destruct begin_document_facts as [_ [F1 [_ [G1 [_ [P1 [_ L1]]]]]]].
  replace (body_ ++ end_document ++ post)
    with ((body_ ++ str "\end{document") ++ rbrace :: post)
    by (rewrite L1, <- !app_assoc; reflexivity).
  assert (occursb end_document
            ([rbrace] ++ body_ ++ str "\end{document") = false) as Hq.
  { change ([rbrace] ++ body_ ++ str "\end{document")
      with ((rbrace :: body_) ++ str "\end{document").
    apply occursb_overlap; try assumption.
    all: apply occursb_cons_other;
      [assumption | discriminate | assumption]. }
  destruct (doc_run_keyword (body_ ++ str "\end{document") [rbrace]
              (doc_found p rbrace) (rbrace :: post))
    as [st' [R [Hd [Ht [Hs Hi]]]]]; try reflexivity; try assumption.
  rewrite R. cbn [run].
  rewrite (doc_step_keyword rbrace _ st' Hd Ht).
  - rewrite Hs, Hi, length_app. cbn [start index doc_found].
    replace (length (str "\end{document")) with 13%nat by reflexivity.
    f_equal. f_equal. lia.
  - replace (([rbrace] ++ body_ ++ str "\end{document") ++ [rbrace])
      with ((rbrace :: body_) ++ end_document)
      by (rewrite L1; cbn [app]; rewrite <- !app_assoc; reflexivity).
    apply (@window_hit 14 _ (rbrace :: body_) length_end_document).
Qed.

Lemma run_open (p rest : list char) :
  occursb end_document rest = false ->
  run body (doc_found p rbrace) rest = Returned (false, -1, -1)%Z.
Proof.
  intros Ho.
  destruct begin_document_facts as [_ [F1 _]].
  assert (occursb end_document ([rbrace] ++ rest) = false) as Hq.
  { apply occursb_cons_other; [assumption | discriminate | assumption]. }
  destruct (doc_run_keyword rest [rbrace] (doc_found p rbrace) [])
    as [st' [R _]]; try reflexivity; try assumption.
  rewrite app_nil_r in R. rewrite R. reflexivity.
Qed.

End DocumentFacts.

(** ** The scanners on whole documents *)

(** C6.  Example 1: on [\begin{abstract}Hello world\end{abstract}], a
    document of 41 characters, [check_abstract] returns (True, 0, 41). *)
Theorem example_begin_abstract :
  length (str "\begin{abstract}Hello world\end{abstract}") = 41%nat /\
  check_abstract (str "\begin{abstract}Hello world\end{abstract}") =
  Returned (true, 0, 41)%Z.
Proof. vm_compute. split; reflexivity. Qed.

(** C1, as stated, fails.  On Example 1 the backslash of the opening
    literal is the character of index 0 and [start] is 0, but the closing
    brace of [\end{abstract}] is the character of index 40 and [end] is 41,
    one past it.  And when [\abstract{] comes first, [start] is not the
    index of the backslash of [\begin{abstract}] (12 below). *)
Lemma begin_end_index_counterexample :
  nth_error (str "\begin{abstract}Hello world\end{abstract}") 0
    = Some backslash /\
  nth_error (str "\begin{abstract}Hello world\end{abstract}") 40
    = Some rbrace /\
  nth_error (str "\begin{abstract}Hello world\end{abstract}") 41 = None /\
  occursb Abstract.begin_abstract (str "Hello world") = false /\
  check_abstract (str "\begin{abstract}Hello world\end{abstract}")
    = Returned (true, 0, 41)%Z /\
  check_abstract (str "\begin{abstract}Hello world\end{abstract}")
    <> Returned (true, 0, 40)%Z /\
  str "\abstract{a}\begin{abstract}b\end{abstract}" =
    str "\abstract{a}" ++ Abstract.begin_abstract ++ str "b"
      ++ Abstract.end_abstract /\
  check_abstract (str "\abstract{a}\begin{abstract}b\end{abstract}")
    = Returned (true, 0, 12)%Z.
Proof. vm_compute. repeat split; discriminate. Qed.

(** C1, amended.  When the first opening literal of the document is
    [\begin{abstract}] (neither opening literal occurs in the text [pre]
    before it) and [\end{abstract}] follows the text [body] in which it
    does not occur, [check_abstract] returns found = True, [start] = the
    number of characters before the backslash of [\begin{abstract}], that
    is the backslash's index from 0, and [end] = the number of characters
    up to and including the closing brace of [\end{abstract}], that is the
    brace's index from 0 plus one. *)
Theorem check_abstract_begin_end (pre body post : list char) :
  occursb Abstract.begin_abstract pre = false ->
  occursb Abstract.abstract_brace pre = false ->
  occursb Abstract.end_abstract body = false ->
  check_abstract
    (pre ++ Abstract.begin_abstract ++ body ++ Abstract.end_abstract ++ post)
  = Returned
      (true,
       Z.of_nat (length pre),
       Z.of_nat
         (length
            (pre ++ Abstract.begin_abstract ++ body ++ Abstract.end_abstract))).
Proof.
  intros H0 H1 H2.
  rewrite check_abstract_run, AbstractFacts.run_to_begin by assumption.
  rewrite AbstractFacts.run_begin_closed by assumption.
  rewrite !length_app, AbstractFacts.length_begin_abstract,
    AbstractFacts.length_end_abstract.
  replace (length (str "\begin{abstract")) with 15%nat by reflexivity.
  f_equal. f_equal; [f_equal|]; lia.
Qed.

Lemma check_abstract_begin_end_witness :
  check_abstract (str "x\begin{abstract}Hello {w}\end{abstract}y") =
  Returned (true, 1, 40)%Z.
Proof.
  exact (check_abstract_begin_end (str "x") (str "Hello {w}") (str "y")
           eq_refl eq_refl eq_refl).
Defined.

(** C2, as stated, fails.  On Example 2 the final brace is the character
    of index 30 and the inner closing brace the one of index 24, but the
    returned [end] is 31, not 30.  And when an unterminated
    [\begin{abstract}] comes first, [\abstract{x}] is not found. *)
Lemma nested_braces_counterexample :
  nth_error (str "\abstract{Nested {braces} here}") 30 = Some rbrace /\
  nth_error (str "\abstract{Nested {braces} here}") 24 = Some rbrace /\
  length (str "\abstract{Nested {braces} here}") = 31%nat /\
  check_abstract (str "\abstract{Nested {braces} here}")
    = Returned (true, 0, 31)%Z /\
  check_abstract (str "\abstract{Nested {braces} here}")
    <> Returned (true, 0, 30)%Z /\
  str "\begin{abstract}\abstract{x}" =
    str "\begin{abstract}" ++ Abstract.abstract_brace ++ str "x"
      ++ [rbrace] /\
  balanced (str "x") = true /\
  check_abstract (str "\begin{abstract}\abstract{x}")
    = Returned (false, -1, -1)%Z.
Proof. vm_compute. repeat split; discriminate. Qed.

(** C2, amended.  When the first opening literal of the document is
    [\abstract{] (neither opening literal occurs in the text [pre] before
    it) and the text [body] after it has balanced braces and is followed by
    a closing brace, [check_abstract] returns found = True, [start] = the
    index from 0 of the backslash, and [end] = the number of characters up
    to and including that closing brace, the one that brings the balance
    back to zero: its index from 0 plus one.  No closing brace inside
    [body] is designated, however deep the nesting. *)
Theorem check_abstract_braces (pre body post : list char) :
  occursb Abstract.begin_abstract pre = false ->
  occursb Abstract.abstract_brace pre = false ->
  balanced body = true ->
  check_abstract (pre ++ Abstract.abstract_brace ++ body ++ rbrace :: post)
  = Returned
      (true,
       Z.of_nat (length pre),
       Z.of_nat (length (pre ++ Abstract.abstract_brace ++ body ++ [rbrace]))).
Proof.
  intros H0 H1 H2.
  rewrite check_abstract_run, AbstractFacts.run_to_brace by assumption.
  rewrite AbstractFacts.run_brace_closed by assumption.
  rewrite !length_app, AbstractFacts.length_abstract_brace.
  replace (length (str "\abstract")) with 9%nat by reflexivity.
  cbn [length]. f_equal. f_equal; [f_equal|]; lia.
Qed.

Lemma check_abstract_braces_witness :
  check_abstract (str "\abstract{Nested {braces} here}") =
  Returned (true, 0, 31)%Z.
Proof.
  exact (check_abstract_braces [] (str "Nested {braces} here") []
           eq_refl eq_refl eq_refl).
Defined.

(** C3.  Every call of [check_abstract] and of [check_document] returns a
    triple, and the triple satisfies the invariant of a scan result: when
    found is False, [start] and [end] are -1; when found is True,
    0 <= start < end <= the length of the document. *)
Theorem scan_result_invariant (d : list char) :
  (exists r, check_abstract d = Returned r /\
             scan_result_inv (Z.of_nat (length d)) r) /\
  (exists r, check_document d = Returned r /\
             scan_result_inv (Z.of_nat (length d)) r).
Proof.
  split.
  - rewrite check_abstract_run, AbstractFacts.init_searching.
    apply (AbstractFacts.run_total d []).
  - rewrite check_document_run, DocumentFacts.doc_init_searching.
    apply (DocumentFacts.doc_run_total d []).
Qed.

(** C4, as stated, fails.  An opening literal that occurs and is never
    terminated does not make the scanner return (False, -1, -1) when
    another opening literal came before it and was terminated: in
    [\abstract{a}\begin{abstract}] nothing follows [\begin{abstract}], and
    [check_abstract] returns (True, 0, 12), the span of [\abstract{a}];
    in [\begin{document}\end{document}\begin{document}] nothing follows
    the second [\begin{document}], and [check_document] returns
    (True, 0, 30). *)
Lemma unterminated_counterexample :
  str "\abstract{a}\begin{abstract}" =
    str "\abstract{a}" ++ Abstract.begin_abstract ++ [] /\
  occursb Abstract.end_abstract [] = false /\
  check_abstract (str "\abstract{a}\begin{abstract}")
    = Returned (true, 0, 12)%Z /\
  check_abstract (str "\abstract{a}\begin{abstract}")
    <> Returned (false, -1, -1)%Z /\
  str "\begin{document}\end{document}\begin{document}" =
    (Document.begin_document ++ Document.end_document)
      ++ Document.begin_document ++ [] /\
  occursb Document.end_document [] = false /\
  check_document (str "\begin{document}\end{document}\begin{document}")
    = Returned (true, 0, 30)%Z /\
  check_document (str "\begin{document}\end{document}\begin{document}")
    <> Returned (false, -1, -1)%Z.
Proof. vm_compute. repeat split; discriminate. Qed.

(** C4, amended.  When the first opening literal of the document is never
    terminated, the scanner returns (False, -1, -1): for [check_abstract],
    [\begin{abstract}] with no [\end{abstract}] in the text [rest] after
    it, or [\abstract{] with no character of [rest] bringing the brace
    depth back to zero; for [check_document], [\begin{document}] with no
    [\end{document}] after it.  The start offset, known by then, is not
    returned.  In particular a document that is the opening literal alone
    returns found = False. *)
Theorem unterminated_returns_sentinel (pre rest : list char) :
  (occursb Abstract.begin_abstract pre = false ->
   occursb Abstract.abstract_brace pre = false ->
   occursb Abstract.end_abstract rest = false ->
   check_abstract (pre ++ Abstract.begin_abstract ++ rest)
   = Returned (false, -1, -1)%Z) /\
  (occursb Abstract.begin_abstract pre = false ->
   occursb Abstract.abstract_brace pre = false ->
   never_closes rest = true ->
   check_abstract (pre ++ Abstract.abstract_brace ++ rest)
   = Returned (false, -1, -1)%Z) /\
  (occursb Document.begin_document pre = false ->
   occursb Document.end_document rest = false ->
   check_document (pre ++ Document.begin_document ++ rest)
   = Returned (false, -1, -1)%Z) /\
  check_abstract Abstract.begin_abstract = Returned (false, -1, -1)%Z /\
  check_abstract Abstract.abstract_brace = Returned (false, -1, -1)%Z /\
  check_document Document.begin_document = Returned (false, -1, -1)%Z.
Proof.
  repeat split; try (vm_compute; reflexivity).
  - intros H0 H1 H2.
    rewrite check_abstract_run, AbstractFacts.run_to_begin by assumption.
    apply AbstractFacts.run_begin_open. exact H2.
  - intros H0 H1 H2.
    rewrite check_abstract_run, AbstractFacts.run_to_brace by assumption.
    apply AbstractFacts.run_brace_open. exact H2.
  - intros H0 H2.
    rewrite check_document_run, DocumentFacts.doc_run_to_begin by assumption.
    apply DocumentFacts.run_open. exact H2.
Qed.

Lemma unterminated_returns_sentinel_witness :
  check_abstract (str "x\begin{abstract} text {a} \end{abstrac")
    = Returned (false, -1, -1)%Z /\
  check_abstract (str "x\abstract{ text {a} \end{abstrac")
    = Returned (false, -1, -1)%Z /\
  check_document (str "x\begin{document} text {a} \end{abstrac")
    = Returned (false, -1, -1)%Z.
Proof.
  pose proof (unterminated_returns_sentinel
                (str "x") (str " text {a} \end{abstrac"))
    as [A [B [C _]]].
  exact (conj (A eq_refl eq_refl eq_refl)
           (conj (B eq_refl eq_refl eq_refl) (C eq_refl eq_refl))).
Defined.

(** C5.  A document in which no opening literal occurs ([\begin{abstract}]
    and [\abstract{] for [check_abstract], [\begin{document}] for
    [check_document]) makes the scanner return (False, -1, -1): a returned
    value, not an exception. *)
Theorem no_opening_literal (d : list char) :
  (occursb Abstract.begin_abstract d = false ->
   occursb Abstract.abstract_brace d = false ->
   check_abstract d = Returned (false, -1, -1)%Z) /\
  (occursb Document.begin_document d = false ->
   check_document d = Returned (false, -1, -1)%Z).
Proof.
  split.
  - intros H0 H1.
    rewrite check_abstract_run, AbstractFacts.init_searching.
    rewrite <- (app_nil_r d) at 1.
    rewrite AbstractFacts.run_searching by assumption. reflexivity.
  - intros H0.
    rewrite check_document_run, DocumentFacts.doc_init_searching.
    rewrite <- (app_nil_r d) at 1.
    rewrite DocumentFacts.doc_run_searching by assumption. reflexivity.
Qed.

Lemma no_opening_literal_witness :
  check_abstract (str "no commands here") = Returned (false, -1, -1)%Z /\
  check_document (str "no commands here") = Returned (false, -1, -1)%Z.
Proof.
  pose proof (no_opening_literal (str "no commands here")) as [A B].
  exact (conj (A eq_refl eq_refl) (B eq_refl)).
Defined.

(** C7, as stated, fails.  On Example 4, a document of 37 characters whose
    last one, of index 36, is the closing brace, [check_document] does not
    return (True, 0, 36). *)
Lemma example_document_counterexample :
  length (str "\begin{document}content\end{document}") = 37%nat /\
  nth_error (str "\begin{document}content\end{document}") 36
    = Some rbrace /\
  check_document (str "\begin{document}content\end{document}")
    <> Returned (true, 0, 36)%Z.
Proof. vm_compute. repeat split; discriminate. Qed.

(** C7, amended.  On [\begin{document}content\end{document}], a document
    of 37 characters, [check_document] returns (True, 0, 37): [end] is the
    index from 0 of the closing brace plus one. *)
Theorem example_begin_document :
  check_document (str "\begin{document}content\end{document}") =
  Returned (true, 0, 37)%Z.
Proof. vm_compute. reflexivity. Qed.

(** [check_document] on a document with a terminated [\begin{document}]:
    the counterpart of [check_abstract_begin_end]. *)
Lemma check_document_begin_end (pre body post : list char) :
  occursb Document.begin_document pre = false ->
  occursb Document.end_document body = false ->
  check_document
    (pre ++ Document.begin_document ++ body ++ Document.end_document ++ post)
  = Returned
      (true,
       Z.of_nat (length pre),
       Z.of_nat
         (length
            (pre ++ Document.begin_document ++ body
               ++ Document.end_document))).
Proof.
  intros H0 H2.
  rewrite check_document_run, DocumentFacts.doc_run_to_begin by assumption.
  rewrite DocumentFacts.run_closed by assumption.
  rewrite !length_app, DocumentFacts.length_begin_document,
    DocumentFacts.length_end_document.
  replace (length (str "\begin{document")) with 15%nat by reflexivity.
  f_equal. f_equal; [f_equal|]; lia.
Qed.

(** More fuel than one iteration for each character and one more is never
    used. *)
Lemma check_abstract_fuel_enough (d : list char) (k : nat) :
  Abstract.check_abstract_fuel (S (length d) + k) d = check_abstract d.
Proof.
  rewrite check_abstract_run.
  apply (loop_run _ Abstract.body d [] Abstract.init). lia.
Qed.

Lemma check_document_fuel_enough (d : list char) (k : nat) :
  Document.check_document_fuel (S (length d) + k) d = check_document d.
Proof.
  rewrite check_document_run.
  apply (loop_run _ Document.body d [] Document.init). lia.
Qed.

Lemma check_abstract_returns (d : list char) :
  exists r, check_abstract d = Returned r.
Proof.
  rewrite check_abstract_run, AbstractFacts.init_searching.
  destruct (AbstractFacts.run_total d []) as [r [R _]]. exists r. exact R.
Qed.

Lemma check_document_returns (d : list char) :
  exists r, check_document d = Returned r.
Proof.
  rewrite check_document_run, DocumentFacts.doc_init_searching.
  destruct (DocumentFacts.doc_run_total d []) as [r [R _]]. exists r. exact R.
Qed.

(** ** Two commands that complete at the same character *)




(** C9.  [check_abstract] and [check_document] depend on the document
    alone: a call starts from the initial values of its variables and from
    a new generator, and two calls on the same document, whatever
    iteration budgets [k1] and [k2] they are run with beyond the
    [length d + 1] iterations a call can take, return the same triple. *)
Theorem scan_deterministic (d : list char) (k1 k2 : nat) :
  (exists r,
     Abstract.check_abstract_fuel (S (length d) + k1) d = Returned r /\
     Abstract.check_abstract_fuel (S (length d) + k2) d = Returned r) /\
  (exists r,
     Document.check_document_fuel (S (length d) + k1) d = Returned r /\
     Document.check_document_fuel (S (length d) + k2) d = Returned r).
Proof.
  split.
  - destruct (check_abstract_returns d) as [r R]. exists r.
    rewrite !check_abstract_fuel_enough. split; exact R.
  - destruct (check_document_returns d) as [r R]. exists r.
    rewrite !check_document_fuel_enough. split; exact R.
Qed.


(** ** Every document, case by case *)

(** *** Where a literal first occurs *)

Lemma occursb_nil (pat : list char) : pat <> [] -> occursb pat [] = false.
Proof. destruct pat; [congruence | reflexivity]. Qed.

Lemma occursb_snoc_false (n : nat) (pat p : list char) (c : char) :
  length pat = n ->
  occursb pat p = false ->
  list_eqb (lastn n (p ++ [c])) pat = false ->
  occursb pat (p ++ [c]) = false.
Proof.
  intros Hn Ho Hw. destruct (occursb pat (p ++ [c])) eqn:E; [|reflexivity].
  exfalso. apply occursb_spec in E. destruct E as [u [v E]].
  induction v as [|c' v' _] using rev_ind.
  - rewrite app_nil_r in E. rewrite E in Hw.
    rewrite (window_hit n pat u Hn) in Hw. discriminate.
  -     rewrite !app_assoc in E. apply app_inj_tail in E. destruct E as [E _].
    assert (occursb pat p = true) as F.
    { apply occursb_spec. exists u, v'. rewrite E, <- app_assoc.
      reflexivity. }
    congruence.
Qed.

Lemma cut_last (pat u p : list char) (c : char) :
  pat <> [] -> p ++ [c] = u ++ pat -> exists pat', p = u ++ pat'.
Proof.
  intros Hp E. induction pat as [|x pat' _] using rev_ind; [congruence|].
  rewrite app_assoc in E. apply app_inj_tail in E. destruct E as [E _].
  exists pat'. exact E.
Qed.

(** A text holds no occurrence of [pat], or splits at the first one. *)
Lemma first_occurrence (pat : list char) :
  pat <> [] ->
  forall x : list char,
    occursb pat x = false \/
    exists body post, x = body ++ pat ++ post /\ occursb pat body = false.
Proof.
  intros Hp x. induction x as [|c p IH] using rev_ind.
  - left. apply occursb_nil. exact Hp.
  - destruct IH as [Ho|[body [post [E Hb]]]].
    + destruct (list_eqb (lastn (length pat) (p ++ [c])) pat) eqn:W.
      * right. apply window_match in W. destruct W as [u E].
        exists u, []. rewrite app_nil_r. split; [exact E|].
        destruct (cut_last pat u p c Hp E) as [pat' ->].
        apply (occursb_app_false pat u pat'). exact Ho.
      * left. apply (occursb_snoc_false (length pat)); auto.
    + right. exists body, (post ++ [c]). split; [|exact Hb].
      rewrite E, <- !app_assoc. reflexivity.
Qed.

(** The same for two literals: the text holds neither, or splits at the
    occurrence that ends first. *)
Lemma first_of_two (a b : list char) :
  a <> [] -> b <> [] ->
  forall x : list char,
    (occursb a x = false /\ occursb b x = false) \/
    (exists pre rest,
       x = pre ++ a ++ rest /\
       occursb a pre = false /\ occursb b pre = false) \/
    (exists pre rest,
       x = pre ++ b ++ rest /\
       occursb a pre = false /\ occursb b pre = false).
Proof.
  intros Ha Hb x. induction x as [|c p IH] using rev_ind.
  - left. split; apply occursb_nil; assumption.
  - destruct IH as [[Oa Ob]|[[pre [rest [E F]]]|[pre [rest [E F]]]]].
    + destruct (list_eqb (lastn (length a) (p ++ [c])) a) eqn:Wa.
      * right. left. apply window_match in Wa. destruct Wa as [u E].
        exists u, []. rewrite app_nil_r. split; [exact E|].
        destruct (cut_last a u p c Ha E) as [a' ->].
        split; [apply (occursb_app_false a u a') | 
                apply (occursb_app_false b u a')]; assumption.
      * destruct (list_eqb (lastn (length b) (p ++ [c])) b) eqn:Wb.
        -- right. right. apply window_match in Wb. destruct Wb as [u E].
           exists u, []. rewrite app_nil_r. split; [exact E|].
           destruct (cut_last b u p c Hb E) as [b' ->].
           split; [apply (occursb_app_false a u b') | 
                   apply (occursb_app_false b u b')]; assumption.
        -- left. split;
             [apply (occursb_snoc_false (length a))
             |apply (occursb_snoc_false (length b))]; auto.
    + right. left. exists pre, (rest ++ [c]). split; [|exact F].
      rewrite E, <- !app_assoc. reflexivity.
    + right. right. exists pre, (rest ++ [c]). split; [|exact F].
      rewrite E, <- !app_assoc. reflexivity.
Qed.

(** *** Where the opening brace is closed *)

Lemma balance_nil : balance [] = 0%Z.
Proof. reflexivity. Qed.

Lemma balance_snoc (p : list char) (c : char) :
  balance (p ++ [c]) = (balance p + AbstractStates.delta c)%Z.
Proof.
  induction p as [|x p IH]; cbn [app].
  - rewrite AbstractFacts.balance_cons, balance_nil. lia.
  - rewrite !AbstractFacts.balance_cons, IH. lia.
Qed.

Lemma never_closes_iff (l : list char) :
  never_closes l = true <->
  forall k, (1 <= k <= length l)%nat -> (0 < 1 + balance (firstn k l))%Z.
Proof.
  split.
  - intros H k Hk. apply AbstractFacts.never_closes_prefix; assumption.
  - intros H. unfold never_closes, closes_at. apply forallb_forall.
    intros k Hk. apply in_seq in Hk.
    apply negb_true_iff, Z.leb_gt. apply H. lia.
Qed.

Lemma balanced_iff (l : list char) :
  balanced l = true <->
  (forall k, (k <= length l)%nat -> (0 <= balance (firstn k l))%Z) /\
  balance l = 0%Z.
Proof.
  unfold balanced. rewrite andb_true_iff, forallb_forall, Z.eqb_eq.
  split; intros [H E]; (split; [|exact E]).
  - intros k Hk. apply Z.leb_le, H, in_seq. lia.
  - intros k Hk. apply in_seq in Hk. apply Z.leb_le, H. lia.
Qed.

(** The text after [\abstract{] never closes the brace, or splits at the
    closing brace, after a text with balanced braces. *)
Lemma closing_brace (x : list char) :
  never_closes x = true \/
  exists body post, x = body ++ rbrace :: post /\ balanced body = true.
Proof.
  induction x as [|c p IH] using rev_ind.
  - left. reflexivity.
  - destruct IH as [Hn|[body [post [E Hb]]]].
    + rewrite never_closes_iff in Hn.
      assert (0 < 1 + balance p)%Z as Hp.
      { destruct p as [|y p'] eqn:Ep; [rewrite balance_nil; lia|].
        rewrite <- Ep in *. specialize (Hn (length p)).
        rewrite firstn_all in Hn. apply Hn. rewrite Ep. cbn [length]. lia. }
      destruct (Z.ltb_spec 0 (1 + balance (p ++ [c]))) as [Hc|Hc].
      * left. apply never_closes_iff. intros k Hk.
        rewrite length_app in Hk. cbn [length] in Hk.
        destruct (Nat.eq_dec k (length p + 1)) as [->|Hne].
        -- rewrite <- (length_app p [c]) at 1. rewrite firstn_all. exact Hc.
        -- rewrite firstn_app.
           replace (k - length p)%nat with 0%nat by lia.
           cbn [firstn]. rewrite app_nil_r. apply Hn. lia.
      * right. exists p, []. rewrite balance_snoc in Hc.
        assert (AbstractStates.delta c = (-1)%Z /\ balance p = 0%Z) as [D B].
        { unfold AbstractStates.delta in *.
          destruct (N.eqb c lbrace), (N.eqb c rbrace); lia. }
        assert (c = rbrace) as ->.
        { unfold AbstractStates.delta in D.
          destruct (N.eqb_spec c rbrace) as [->|_]; [reflexivity|].
          destruct (N.eqb c lbrace); lia. }
        split; [reflexivity|]. apply balanced_iff. split; [|exact B].
        intros k Hk. destruct k as [|k].
        -- cbn [firstn]. rewrite balance_nil. lia.
        -- specialize (Hn (S k)). lia.
    + right. exists body, (post ++ [c]). split; [|exact Hb].
      rewrite E, <- app_assoc. reflexivity.
Qed.

(** *** The five cases of [check_abstract], the three of [check_document] *)

Lemma check_abstract_cases (d : list char) :
  (occursb Abstract.begin_abstract d = false /\
   occursb Abstract.abstract_brace d = false /\
   check_abstract d = Returned (false, -1, -1)%Z)
  \/
  (exists pre rest,
     d = pre ++ Abstract.begin_abstract ++ rest /\
     occursb Abstract.begin_abstract pre = false /\
     occursb Abstract.abstract_brace pre = false /\
     occursb Abstract.end_abstract rest = false /\
     check_abstract d = Returned (false, -1, -1)%Z)
  \/
  (exists pre body post,
     d = pre ++ Abstract.begin_abstract ++ body
           ++ Abstract.end_abstract ++ post /\
     occursb Abstract.begin_abstract pre = false /\
     occursb Abstract.abstract_brace pre = false /\
     occursb Abstract.end_abstract body = false /\
     check_abstract d =
     Returned (true, Z.of_nat (length pre),
               Z.of_nat (length pre + 16 + length body + 14)))
  \/
  (exists pre rest,
     d = pre ++ Abstract.abstract_brace ++ rest /\
     occursb Abstract.begin_abstract pre = false /\
     occursb Abstract.abstract_brace pre = false /\
     never_closes rest = true /\
     check_abstract d = Returned (false, -1, -1)%Z)
  \/
  (exists pre body post,
     d = pre ++ Abstract.abstract_brace ++ body ++ rbrace :: post /\
     occursb Abstract.begin_abstract pre = false /\
     occursb Abstract.abstract_brace pre = false /\
     balanced body = true /\
     check_abstract d =
     Returned (true, Z.of_nat (length pre),
               Z.of_nat (length pre + 10 + length body + 1))).
Proof.
  assert (Abstract.begin_abstract <> []) as N0 by discriminate.
  assert (Abstract.abstract_brace <> []) as N1 by discriminate.
  assert (Abstract.end_abstract <> []) as N2 by discriminate.
  destruct (first_of_two _ _ N0 N1 d)
    as [[O0 O1]|[[pre [rest [E [O0 O1]]]]|[pre [rest [E [O0 O1]]]]]].
  - left. repeat split; try assumption.
    rewrite check_abstract_run, AbstractFacts.init_searching.
    rewrite <- (app_nil_r d) at 1.
    rewrite AbstractFacts.run_searching by assumption. reflexivity.
  - destruct (first_occurrence _ N2 rest) as [O2|[body [post [Er O2]]]].
    + right. left. exists pre, rest. repeat split; try assumption.
      rewrite E, check_abstract_run, AbstractFacts.run_to_begin
        by assumption.
      apply AbstractFacts.run_begin_open. exact O2.
    + right. right. left. exists pre, body, post. subst rest.
      repeat split; try assumption.
      rewrite E, check_abstract_run, AbstractFacts.run_to_begin
        by assumption.
      rewrite AbstractFacts.run_begin_closed by assumption.
      rewrite length_app.
      replace (length (str "\begin{abstract")) with 15%nat by reflexivity.
      f_equal. f_equal; [f_equal|]; lia.
  - destruct (closing_brace rest) as [Hn|[body [post [Er Hb]]]].
    + right. right. right. left. exists pre, rest.
      repeat split; try assumption.
      rewrite E, check_abstract_run, AbstractFacts.run_to_brace
        by assumption.
      apply AbstractFacts.run_brace_open. exact Hn.
    + right. right. right. right. exists pre, body, post. subst rest.
      repeat split; try assumption.
      rewrite E, check_abstract_run, AbstractFacts.run_to_brace
        by assumption.
      rewrite AbstractFacts.run_brace_closed by assumption.
      rewrite length_app.
      replace (length (str "\abstract")) with 9%nat by reflexivity.
      f_equal. f_equal; [f_equal|]; lia.
Qed.

Lemma check_document_cases (d : list char) :
  (occursb Document.begin_document d = false /\
   check_document d = Returned (false, -1, -1)%Z)
  \/
  (exists pre rest,
     d = pre ++ Document.begin_document ++ rest /\
     occursb Document.begin_document pre = false /\
     occursb Document.end_document rest = false /\
     check_document d = Returned (false, -1, -1)%Z)
  \/
  (exists pre body post,
     d = pre ++ Document.begin_document ++ body
           ++ Document.end_document ++ post /\
     occursb Document.begin_document pre = false /\
     occursb Document.end_document body = false /\
     check_document d =
     Returned (true, Z.of_nat (length pre),
               Z.of_nat (length pre + 16 + length body + 14))).
Proof.
  assert (Document.begin_document <> []) as N0 by discriminate.
  assert (Document.end_document <> []) as N2 by discriminate.
  destruct (first_occurrence _ N0 d) as [O0|[pre [rest [E O0]]]].
  - left. split; [assumption|].
    rewrite check_document_run, DocumentFacts.doc_init_searching.
    rewrite <- (app_nil_r d) at 1.
    rewrite DocumentFacts.doc_run_searching by assumption. reflexivity.
  - destruct (first_occurrence _ N2 rest) as [O2|[body [post [Er O2]]]].
    + right. left. exists pre, rest. repeat split; try assumption.
      rewrite E, check_document_run, DocumentFacts.doc_run_to_begin
        by assumption.
      apply DocumentFacts.run_open. exact O2.
    + right. right. exists pre, body, post. subst rest.
      repeat split; try assumption.
      rewrite E, check_document_run, DocumentFacts.doc_run_to_begin
        by assumption.
      rewrite DocumentFacts.run_closed by assumption.
      rewrite length_app.
      replace (length (str "\begin{document")) with 15%nat by reflexivity.
      f_equal. f_equal; [f_equal|]; lia.
Qed.

(** X1.  When [check_abstract] returns found = True, the returned offsets
    delimit a real construct: the document is [pre ++ x ++ post] with
    [start] the length of [pre] and [end] the length of [pre ++ x], [pre]
    holds no opening literal, and [x] is [\begin{abstract}], a text without
    [\end{abstract}], and [\end{abstract}], or it is [\abstract{], a text
    with balanced braces, and the closing brace. *)
Theorem check_abstract_found_span (d : list char) (s e : Z) :
  check_abstract d = Returned (true, s, e) -> abstract_span d s e.
Proof.
  intros H.
  destruct (check_abstract_cases d)
    as [[_ [_ R]]|[[pre [rest [_ [_ [_ [_ R]]]]]]
       |[[pre [body [post [E [O0 [O1 [O2 R]]]]]]]
       |[[pre [rest [_ [_ [_ [_ R]]]]]]
       |[pre [body [post [E [O0 [O1 [Hb R]]]]]]]]]]];
    rewrite R in H; try discriminate; injection H as <- <-.
  - exists pre,
      (Abstract.begin_abstract ++ body ++ Abstract.end_abstract), post.
    repeat split; try assumption.
    + rewrite E, <- !app_assoc. reflexivity.
    + rewrite !length_app, AbstractFacts.length_begin_abstract,
        AbstractFacts.length_end_abstract. f_equal. lia.
    + exists body. left. split; [reflexivity | assumption].
  - exists pre, (Abstract.abstract_brace ++ body ++ [rbrace]), post.
    repeat split; try assumption.
    + rewrite E, <- !app_assoc. reflexivity.
    + rewrite !length_app, AbstractFacts.length_abstract_brace.
      cbn [length]. f_equal. lia.
    + exists body. right. split; [reflexivity | assumption].
Qed.

Lemma check_abstract_found_span_witness :
  abstract_span (str "see \abstract{a {b} c} and \begin{abstract}") 4 22.
Proof.
  exact (check_abstract_found_span
           (str "see \abstract{a {b} c} and \begin{abstract}") 4 22 eq_refl).
Defined.

(** X2.  When [check_abstract] returns found = False, the document holds
    no opening literal, or its first opening literal is never terminated:
    no [\end{abstract}] after [\begin{abstract}], or no closing brace for
    [\abstract{]. *)
Theorem check_abstract_not_found (d : list char) (s e : Z) :
  check_abstract d = Returned (false, s, e) -> abstract_absent d.
Proof.
  intros H.
  destruct (check_abstract_cases d)
    as [[O0 [O1 R]]|[[pre [rest [E [O0 [O1 [O2 R]]]]]]
       |[[pre [body [post [E [O0 [O1 [O2 R]]]]]]]
       |[[pre [rest [E [O0 [O1 [Hn R]]]]]]
       |[pre [body [post [E [O0 [O1 [Hb R]]]]]]]]]]];
    rewrite R in H; try discriminate.
  - left. split; assumption.
  - right. exists pre, rest. repeat split; try assumption.
    left. split; assumption.
  - right. exists pre, rest. repeat split; try assumption.
    right. split; assumption.
Qed.

Lemma check_abstract_not_found_witness :
  abstract_absent (str "{}\begin{abstract} lost \abstract{x} \end{abstrac").
Proof.
  exact (check_abstract_not_found
           (str "{}\begin{abstract} lost \abstract{x} \end{abstrac")
           (-1) (-1) eq_refl).
Defined.

(** X3.  When [check_document] returns found = True, the returned offsets
    delimit the first [\begin{document}] of the document and the text up
    to the first [\end{document}] after it: [start] is the number of
    characters before it, [end] the number of characters up to and
    including the closing brace. *)
Theorem check_document_found_span (d : list char) (s e : Z) :
  check_document d = Returned (true, s, e) -> document_span d s e.
Proof.
  intros H.
  destruct (check_document_cases d)
    as [[_ R]|[[pre [rest [_ [_ [_ R]]]]]
       |[pre [body [post [E [O0 [O2 R]]]]]]]];
    rewrite R in H; try discriminate; injection H as <- <-.
  exists pre, body, post. repeat split; try assumption.
  - rewrite E, <- !app_assoc. reflexivity.
  - f_equal. lia.
Qed.

Lemma check_document_found_span_witness :
  document_span
    (str "%\begin{document}\begin{document}x\end{document}\end{document}")
    1 48.
Proof.
  exact (check_document_found_span
           (str "%\begin{document}\begin{document}x\end{document}\end{document}")
           1 48 eq_refl).
Defined.

(** X4.  When [check_document] returns found = False, the document holds
    no [\begin{document}], or no [\end{document}] follows the first
    one. *)
Theorem check_document_not_found (d : list char) (s e : Z) :
  check_document d = Returned (false, s, e) -> document_absent d.
Proof.
  intros H.
  destruct (check_document_cases d)
    as [[O0 R]|[[pre [rest [E [O0 [O2 R]]]]]
       |[pre [body [post [E [O0 [O2 R]]]]]]]];
    rewrite R in H; try discriminate.
  - left. assumption.
  - right. exists pre, rest. repeat split; assumption.
Qed.

Lemma check_document_not_found_witness :
  document_absent (str "\end{document}\begin{document} and no end").
Proof.
  exact (check_document_not_found
           (str "\end{document}\begin{document} and no end")
           (-1) (-1) eq_refl).
Defined.

(** ** Strings cut at a separator *)

Lemma split_not_nil (sep : char) (s : list char) : split sep s <> [].
Proof.
  destruct s as [|c s]; cbn [split]; [discriminate|].
  destruct (N.eqb c sep); [discriminate|].
  destruct (split sep s); discriminate.
Qed.

Lemma split_app (sep : char) (a b : list char) :
  split sep (a ++ sep :: b) = split sep a ++ split sep b.
Proof.
  induction a as [|c a IH]; cbn [app split].
  - rewrite N.eqb_refl. reflexivity.
  - rewrite IH. destruct (N.eqb c sep); [reflexivity|].
    pose proof (split_not_nil sep a) as N.
    destruct (split sep a) as [|part parts]; [congruence | reflexivity].
Qed.

Lemma split_no_sep (sep : char) (s : list char) :
  ~ In sep s -> split sep s = [s].
Proof.
  induction s as [|c s IH]; intros H; cbn [split]; [reflexivity|].
  destruct (N.eqb_spec c sep) as [->|_]; [exfalso; apply H; left; reflexivity|].
  rewrite IH; [reflexivity|]. intros I. apply H. right. exact I.
Qed.

Lemma concat_split (sep : char) (s : list char) :
  concat (split sep s) = filter (fun c => negb (N.eqb c sep)) s.
Proof.
  induction s as [|c s IH]; cbn [split filter]; [reflexivity|].
  destruct (N.eqb c sep); cbn [negb concat app]; [exact IH|].
  pose proof (split_not_nil sep s) as N.
  destruct (split sep s) as [|part parts]; [congruence|].
  cbn [concat app] in *. rewrite IH. reflexivity.
Qed.

(** A string holds no separator, or splits at its last one. *)
Lemma last_separator (sep : char) (s : list char) :
  ~ In sep s \/ exists a b, s = a ++ sep :: b /\ ~ In sep b.
Proof.
  induction s as [|c s IH]; [left; intros []|].
  destruct IH as [H|[a [b [-> H]]]].
  - destruct (N.eq_dec c sep) as [->|Hc].
    + right. exists [], s. split; [reflexivity | exact H].
    + left. intros [E|I]; [congruence | exact (H I)].
  - right. exists (c :: a), b. split; [reflexivity | exact H].
Qed.

Lemma last_item_snoc {A : Type} (l : list A) (a : A) :
  last_item (l ++ [a]) = Ok a.
Proof. unfold last_item. rewrite rev_app_distr. reflexivity. Qed.

(** [s.split(sep)[-1]] is what follows the last separator of [s], all of
    [s] when it has none. *)
Lemma last_of_split (sep : char) (s : list char) :
  exists dir name,
    s = dir ++ name /\
    last_item (split sep s) = Ok name /\
    ~ In sep name /\
    (dir = [] \/ exists dir', dir = dir' ++ [sep]).
Proof.
  destruct (last_separator sep s) as [H|[a [b [-> H]]]].
  - exists [], s. rewrite (split_no_sep sep s H).
    repeat split; [exact H | left; reflexivity].
  - exists (a ++ [sep]), b. rewrite split_app, (split_no_sep sep b H).
    rewrite last_item_snoc, <- app_assoc.
    repeat split; [exact H | right; exists a; reflexivity].
Qed.

Lemma fold_left_app_concat (l : list (list char)) (acc : list char) :
  fold_left (fun out x => out ++ x) l acc = acc ++ concat l.
Proof.
  revert acc; induction l as [|x l IH]; intros acc; cbn [fold_left concat].
  - rewrite app_nil_r. reflexivity.
  - rewrite IH, app_assoc. reflexivity.
Qed.

Lemma filter_dots_filter (s : list char) :
  filter_dots s = filter (fun c => negb (N.eqb c dot)) s.
Proof.
  unfold filter_dots. cbv zeta.
  rewrite fold_left_app_concat, concat_split. reflexivity.
Qed.

Lemma count_filter_length (c : char) (s : list char) :
  Z.of_nat (length (filter (fun x => negb (N.eqb x c)) s)) =
  (Z.of_nat (length s) - count c s)%Z.
Proof.
  unfold count. induction s as [|x s IH]; [reflexivity|].
  cbn [filter count_occ length].
  destruct (N.eq_dec x c) as [->|H].
  - rewrite N.eqb_refl. cbn [negb]. lia.
  - destruct (N.eqb_spec x c); [contradiction|]. cbn [negb length]. lia.
Qed.

(** X5.  [filter_dots] returns its argument with every dot removed and
    the other characters kept, in their order: the result holds no dot, is
    shorter by the number of dots, and is left as it is by a second
    [filter_dots]. *)
Theorem filter_dots_removes_dots (filename : list char) :
  filter_dots filename = filter (fun c => negb (N.eqb c dot)) filename /\
  ~ In dot (filter_dots filename) /\
  Z.of_nat (length (filter_dots filename)) =
    (Z.of_nat (length filename) - count dot filename)%Z /\
  filter_dots (filter_dots filename) = filter_dots filename.
Proof.
  rewrite !filter_dots_filter. repeat split.
  - intros I. apply filter_In in I. destruct I as [_ I].
    rewrite N.eqb_refl in I. discriminate.
  - apply count_filter_length.
  - induction filename as [|c s IH]; [reflexivity|]. cbn [filter].
    destruct (N.eqb c dot) eqn:E; cbn [negb filter]; [exact IH|].
    rewrite E. cbn [negb]. rewrite IH. reflexivity.
Qed.

(** X6.  The file name [download] saves under, [url.split('/')[-1]], is
    what follows the last slash of the url (the whole url when it has
    none, the empty name when the url ends with a slash): it holds no
    slash, and taking it never raises. *)
Theorem download_filename_is_last_component (url : list char) :
  exists dir name,
    url = dir ++ name /\
    Download.filename url = Ok name /\
    ~ In slash name /\
    (dir = [] \/ exists dir', dir = dir' ++ [slash]).
Proof.
  unfold Download.filename.
  destruct (last_separator slash url) as [H|[a [b [-> H]]]].
  - exists [], url. rewrite (split_no_sep slash url H).
    repeat split; [exact H | left; reflexivity].
  - exists (a ++ [slash]), b.
    rewrite split_app, (split_no_sep slash b H), last_item_snoc.
    rewrite <- app_assoc.
    repeat split; [exact H | right; exists a; reflexivity].
Qed.

(** X7.  The step that completes the url of the pdf looks at what follows
    the last dot of the url (the whole url when it has no dot): when that
    is [pdf] the url is kept as it is, otherwise [.pdf] is added to it.
    Either way the last dot-separated part of the result is [pdf], a
    second pass changes nothing more, and the step never raises. *)
Theorem pdf_url_has_extension (url : list char) :
  exists dir ext,
    url = dir ++ ext /\
    ~ In dot ext /\
    (dir = [] \/ exists dir', dir = dir' ++ [dot]) /\
    last_item (split dot url) = Ok ext /\
    Download.pdf_url url =
      Ok (if list_eqb ext (str "pdf") then url else url ++ str ".pdf") /\
    exists url',
      Download.pdf_url url = Ok url' /\
      last_item (split dot url') = Ok (str "pdf") /\
      Download.pdf_url url' = Ok url'.
Proof.
  assert (forall u, last_item (split dot u) = Ok (str "pdf") ->
                    Download.pdf_url u = Ok u) as Fix.
  { intros u E. unfold Download.pdf_url. rewrite E. reflexivity. }
  destruct (last_of_split dot url) as [dir [name [E [L [N D]]]]].
  exists dir, name.
  assert (Download.pdf_url url =
          Ok (if list_eqb name (str "pdf") then url else url ++ str ".pdf"))
    as P.
  { unfold Download.pdf_url. rewrite L. cbn [bind].
    destruct (list_eqb name (str "pdf")); reflexivity. }
  split; [exact E|]. split; [exact N|]. split; [exact D|].
  split; [exact L|]. split; [exact P|].
  rewrite P. destruct (list_eqb name (str "pdf")) eqn:Q.
  - apply list_eqb_eq in Q. subst name.
    exists url. split; [reflexivity|]. split; [exact L | exact (Fix _ L)].
  - exists (url ++ str ".pdf").
    assert (last_item (split dot (url ++ str ".pdf")) = Ok (str "pdf")) as L'.
    { change (str ".pdf") with (dot :: str "pdf").
      rewrite split_app. change (split dot (str "pdf")) with [str "pdf"].
      apply last_item_snoc. }
    split; [reflexivity|]. split; [exact L' | exact (Fix _ L')].
Qed.

(** ** The link of the pdf *)

Lemma has_key_lookup (key : list char) (l : Download.link) :
  Download.has_key key l = true ->
  exists v, Download.lookup key l = Val v.
Proof.
  induction l as [|[k v] l IH]; cbn; [discriminate|].
  destruct (list_eqb k key); [eauto|]. cbn. exact IH.
Qed.

(** From two links on [entry['link']] is a list. *)
Lemma entry_link_nth_list (links : list Download.link) (n : nat) :
  (2 <= length links)%nat ->
  Download.entry_link_nth links n = of_res (getitem links n).
Proof.
  destruct links as [|a [|b rest]]; cbn [length]; intros H; try lia.
  reflexivity.
Qed.

(** With fewer than two links the first [entry['link'][n]] raises. *)
Lemma url_pdf_few_links (links : list Download.link) :
  (length links <= 1)%nat ->
  Download.url_pdf links = Exc KeyError.
Proof.
  destruct links as [|a [|b rest]]; cbn [length]; intros H; try lia;
    reflexivity.
Qed.

(** One turn of the loop on a link that exists. *)
Lemma pdf_link_loop_step (fuel : nat) (links : list Download.link)
    (n : nat) (l : Download.link) :
  (2 <= length links)%nat ->
  (n <= 2)%nat ->
  nth_error links n = Some l ->
  Download.pdf_link_loop (S fuel) links n =
  if titled_pdf l then Val n else Download.pdf_link_loop fuel links (S n).
Proof.
  intros H2 Hn Hl. cbn [Download.pdf_link_loop].
  destruct (Nat.leb_spec n 2) as [_|F]; [|lia].
  rewrite (entry_link_nth_list links n H2).
  unfold getitem, titled_pdf. rewrite Hl. cbn [of_res].
  destruct (Download.has_key (str "@title") l) eqn:K; [|reflexivity].
  destruct (has_key_lookup _ _ K) as [v ->]. cbn [andb].
  destruct (list_eqb v (str "pdf")); reflexivity.
Qed.

Lemma pdf_link_loop_missing (fuel : nat) (links : list Download.link)
    (n : nat) :
  (2 <= length links)%nat ->
  (n <= 2)%nat ->
  nth_error links n = None ->
  Download.pdf_link_loop (S fuel) links n = Exc (Builtin IndexError).
Proof.
  intros H2 Hn Hl. cbn [Download.pdf_link_loop].
  destruct (Nat.leb_spec n 2) as [_|F]; [|lia].
  rewrite (entry_link_nth_list links n H2).
  unfold getitem. rewrite Hl. reflexivity.
Qed.





(** ** The generators as lists *)

Lemma drain_rest (rest : list char) :
  forall (p : list char) (fuel : nat),
    (length rest < fuel)%nat ->
    drain fuel {| contents := p ++ rest; pos := length p |} = Val rest.
Proof.
  induction rest as [|c rest IH]; intros p [|fuel] Hf;
    cbn [length] in Hf; try lia; cbn [drain].
  - rewrite next_stop; [reflexivity|].
    cbn. rewrite length_app. cbn. lia.
  - rewrite next_yield.
    specialize (IH (p ++ [c]) fuel).
    rewrite <- app_assoc, length_app, Nat.add_1_r in IH. cbn [app] in IH.
    rewrite IH by lia. reflexivity.
Qed.

(** X10.  [char_gen] yields the characters of its argument, all of them,
    once each and in their order, then stops: [list(char_gen(s))] is [s],
    within [len(s) + 1] calls of [next], and a generator that has stopped
    stays stopped. *)
Theorem char_gen_yields_the_string (s : list char) (k n : nat) :
  drain (S (length s) + k) (char_gen s) = Val s /\
  next {| contents := s; pos := length s + n |} = StopIteration.
Proof.
  split.
  - apply (drain_rest s []). lia.
  - apply next_stop. cbn. lia.
Qed.

Lemma word_gen_loop_words (filter rest : list char) :
  forall (p word : list char) (fuel : nat),
    (length rest < fuel)%nat ->
    word_gen_loop fuel (p ++ rest) filter (length p) word =
    Val (words filter rest word).
Proof.
  induction rest as [|c rest IH]; intros p word [|fuel] Hf;
    cbn [length] in Hf; try lia; cbn [word_gen_loop words].
  - rewrite app_nil_r.
    destruct (Z.leb_spec (Z.of_nat (length p)) (Z.of_nat (length p) - 1));
      [lia | reflexivity].
  - rewrite length_app. cbn [length].
    destruct (Z.leb_spec (Z.of_nat (length p))
                (Z.of_nat (length p + S (length rest)) - 1)) as [_|F];
      [|lia].
    unfold getitem. rewrite nth_error_app2, Nat.sub_diag by lia.
    cbn [nth_error].
    pose proof (IH (p ++ [c])) as IH'.
    rewrite <- app_assoc, length_app, Nat.add_1_r in IH'. cbn [app] in IH'.
    destruct (char_in c filter).
    + rewrite IH' by lia. reflexivity.
    + apply IH'. lia.
Qed.

Lemma word_gen_words (s filter : list char) :
  word_gen s filter = Val (words filter s []).
Proof. apply (word_gen_loop_words filter s [] []). lia. Qed.

Lemma concat_yielded (word : list char) (c : char) :
  concat (if (0 <? length word)%nat then [word; [c]] else [[c]]) =
  word ++ [c].
Proof. destruct word; reflexivity. Qed.

Lemma words_rebuild (filter rest : list char) :
  forall word : list char,
    forallb (fun c => negb (char_in c filter)) word = true ->
    exists tail,
      word ++ rest = concat (words filter rest word) ++ tail /\
      forallb (fun c => negb (char_in c filter)) tail = true /\
      (concat (words filter rest word) = [] \/
       exists q c, concat (words filter rest word) = q ++ [c] /\
                   char_in c filter = true).
Proof.
  induction rest as [|c rest IH]; intros word Hw; cbn [words].
  - exists word. rewrite app_nil_r. auto.
  - destruct (char_in c filter) eqn:Hc.
    + destruct (IH [] eq_refl) as [tail [E [Ht L]]]. cbn [app] in E.
      exists tail. rewrite concat_app, concat_yielded.
      split; [rewrite <- !app_assoc, <- E; reflexivity|].
      split; [exact Ht|]. right.
      destruct L as [-> | [q [c' [-> Hc']]]].
      * exists word, c. rewrite app_nil_r. auto.
      * exists ((word ++ [c]) ++ q), c'. rewrite <- !app_assoc. auto.
    + destruct (IH (word ++ [c])) as [tail [E X]].
      { rewrite forallb_app, Hw. cbn. rewrite Hc. reflexivity. }
      exists tail. rewrite <- app_assoc in E. cbn [app] in E. auto.
Qed.

Lemma words_alternate (filter rest : list char) :
  forall word : list char,
    forallb (fun c => negb (char_in c filter)) word = true ->
    alternates filter (words filter rest word) = true.
Proof.
  induction rest as [|c rest IH]; intros word Hw; cbn [words];
    [reflexivity|].
  destruct (char_in c filter) eqn:Hc.
  - specialize (IH [] eq_refl).
    destruct word as [|x word]; cbn [length Nat.ltb Nat.leb app].
    + cbn [alternates is_sep]. rewrite Hc. exact IH.
    + assert (is_sep filter (x :: word) = false) as S1.
      { cbn [forallb] in Hw. apply andb_true_iff in Hw.
        destruct Hw as [Hx _]. apply negb_true_iff in Hx.
        destruct word; [cbn; exact Hx | reflexivity]. }
      assert (is_word filter (x :: word) = true) as W1
          by (unfold is_word; rewrite Hw; reflexivity).
      change (alternates filter
                ((x :: word) :: [c] :: words filter rest []) = true).
      cbn [alternates]. rewrite S1, W1. cbn [is_sep]. rewrite Hc.
      cbn [andb]. exact IH.
  - apply IH. rewrite forallb_app, Hw. cbn. rewrite Hc. reflexivity.
Qed.

(** X11.  Joined, the items [word_gen] yields give back the text up to and
    including its last filter character, and nothing after it: the word
    that ends the text is never yielded.  The text is rebuilt in full only
    when it is empty or ends with a filter character. *)
Theorem word_gen_rebuilds_prefix (tex_contents filter : list char) :
  exists items tail,
    word_gen tex_contents filter = Val items /\
    tex_contents = concat items ++ tail /\
    forallb (fun c => negb (char_in c filter)) tail = true /\
    (concat items = [] \/
     exists q c, concat items = q ++ [c] /\ char_in c filter = true).
Proof.
  destruct (words_rebuild filter tex_contents [] eq_refl)
    as [tail [E [Ht L]]].
  exists (words filter tex_contents []), tail.
  rewrite word_gen_words. auto.
Qed.

(** X12.  Every item [word_gen] yields is one filter character or a word,
    not empty, without filter character; and every word is followed by
    the item of a filter character. *)
Theorem word_gen_items_alternate (tex_contents filter : list char) :
  exists items,
    word_gen tex_contents filter = Val items /\
    alternates filter items = true.
Proof.
  exists (words filter tex_contents []). rewrite word_gen_words.
  split; [reflexivity|]. apply words_alternate. reflexivity.
Qed.

(** ** print_tex *)

Lemma slice_to_min (s : list char) :
  slice_to s (Z.min (Z.of_nat (length s) - 1) 5000) =
  firstn (Nat.min (length s - 1) 5000) s.
Proof.
  unfold slice_to. destruct s as [|c s].
  - reflexivity.
  - cbn [length].
    destruct (Z.ltb_spec (Z.min (Z.of_nat (S (length s)) - 1) 5000) 0);
      [lia|].
    f_equal. lia.
Qed.

(** X13.  [print_tex] prints the first [min(len - 1, 5000)] characters of
    the file: at most 5000, and never the last character of the file. *)
Theorem print_tex_prints_prefix (tex_file_dir tex_contents : list char) :
  endswith tex_file_dir (str ".tex") = true ->
  exists printed,
    print_tex true tex_file_dir (Some tex_contents) = Val printed /\
    printed = firstn (Nat.min (length tex_contents - 1) 5000) tex_contents /\
    length printed = Nat.min (length tex_contents - 1) 5000.
Proof.
  intros H. unfold print_tex. rewrite H. cbn [negb].
  eexists. split; [reflexivity|]. rewrite slice_to_min.
  split; [reflexivity|]. rewrite length_firstn. lia.
Qed.

Lemma print_tex_prints_prefix_witness :
  exists printed,
    print_tex true (str "paper.tex") (Some (str "\title{x}")) = Val printed /\
    printed = firstn (Nat.min (length (str "\title{x}") - 1) 5000)
                (str "\title{x}") /\
    length printed = Nat.min (length (str "\title{x}") - 1) 5000.
Proof.
  exact (print_tex_prints_prefix (str "paper.tex") (str "\title{x}") eq_refl).
Defined.

(** ** The row of a folder *)

Lemma sum_bools_acc (l : list bool) (acc : Z) :
  fold_left (fun a (b : bool) => if b then (a + 1)%Z else a) l acc =
  (acc + sum_bools l)%Z.
Proof.
  unfold sum_bools. revert acc.
  induction l as [|b l IH]; intros acc; cbn [fold_left]; [lia|].
  rewrite (IH (if b then (acc + 1)%Z else acc)).
  rewrite (IH (if b then (0 + 1)%Z else 0%Z)). destruct b; lia.
Qed.

Lemma sum_bools_cons (b : bool) (l : list bool) :
  sum_bools (b :: l) = ((if b then 1 else 0) + sum_bools l)%Z.
Proof.
  unfold sum_bools at 1. cbn [fold_left]. rewrite sum_bools_acc.
  destruct b; lia.
Qed.

Lemma sum_bools_app (a b : list bool) :
  sum_bools (a ++ b) = (sum_bools a + sum_bools b)%Z.
Proof.
  induction a as [|x a IH]; cbn [app]; [reflexivity|].
  rewrite !sum_bools_cons, IH. lia.
Qed.

Lemma sum_bools_none (f : list char -> bool) (l : list (list char)) :
  forallb (fun x => negb (f x)) l = true -> sum_bools (map f l) = 0%Z.
Proof.
  induction l as [|x l IH]; cbn [forallb map]; [reflexivity|].
  rewrite andb_true_iff, negb_true_iff. intros [Hx Hl].
  rewrite sum_bools_cons, Hx, IH by exact Hl. reflexivity.
Qed.

Lemma scan_first_tex_skip (fd : Categorize.folder)
    (before rest : list (list char)) :
  forallb (fun x => negb (endswith x (str ".tex"))) before = true ->
  Categorize.scan_first_tex fd (before ++ rest) =
  Categorize.scan_first_tex fd rest.
Proof.
  induction before as [|x before IH]; cbn [forallb app]; [reflexivity|].
  rewrite andb_true_iff, negb_true_iff. intros [Hx Hl].
  cbn [Categorize.scan_first_tex]. rewrite Hx. apply IH. exact Hl.
Qed.

(** What the scanners return is a pair of triples that keep the invariant
    of a scan result. *)
Lemma scanners_return (tex_contents : list char) :
  exists a d,
    check_abstract tex_contents = Returned a /\
    check_document tex_contents = Returned d /\
    scan_result_inv (Z.of_nat (length tex_contents)) a /\
    scan_result_inv (Z.of_nat (length tex_contents)) d.
Proof.
  pose proof (AbstractFacts.run_total tex_contents []) as [a [Ra Ia]].
  pose proof (DocumentFacts.doc_run_total tex_contents []) as [d [Rd Id]].
  exists a, d. rewrite check_abstract_run, check_document_run.
  rewrite AbstractFacts.init_searching, DocumentFacts.doc_init_searching.
  auto.
Qed.

(** X14.  For a folder that holds exactly one file whose name ends with
    [.tex], and the file can be read, the line of the csv carries what the
    two scanners return on the contents of that file, [num_tex] is 1, and
    [error] is set only by a pdf that is not readable; nothing is written
    when opening the pdf raises. *)
Theorem folder_row_scans_the_tex_file
    (folder_dir raw_dir cat_ : list char) (fd : Categorize.folder)
    (before after : list (list char)) (f tex_contents : list char) :
  Categorize.files fd = before ++ f :: after ->
  endswith f (str ".tex") = true ->
  forallb (fun x => negb (endswith x (str ".tex"))) before = true ->
  forallb (fun x => negb (endswith x (str ".tex"))) after = true ->
  Categorize.read fd f = Some tex_contents ->
  exists a d,
    check_abstract tex_contents = Returned a /\
    check_document tex_contents = Returned d /\
    match Categorize.folder_row folder_dir raw_dir cat_ fd with
    | Val r =>
        (Categorize.abstract r, Categorize.abs_start r, Categorize.abs_end r)
        = a /\
        (Categorize.doc r, Categorize.doc_start r, Categorize.doc_end r)
        = d /\
        Categorize.num_tex r = 1%Z /\
        Categorize.error r =
        match Categorize.raw fd with
        | Some (Some false) => true
        | _ => false
        end
    | Exc _ => Categorize.raw fd = Some None
    | Fuel => False
    end.
Proof.
  intros Hf Ht Hb Ha Hr.
  destruct (scanners_return tex_contents) as [a [d [Ra [Rd _]]]].
  exists a, d. split; [exact Ra|]. split; [exact Rd|].
  unfold Categorize.folder_row. cbv zeta.
  assert (sum_bools
            (map (fun x => endswith x (str ".tex")) (Categorize.files fd))
          = 1%Z) as N.
  { rewrite Hf, map_app, sum_bools_app. cbn [map].
    rewrite sum_bools_cons, Ht, !sum_bools_none by assumption.
    reflexivity. }
  rewrite N. cbn [Z.eqb Pos.eqb].
  rewrite Hf, scan_first_tex_skip by exact Hb.
  cbn [Categorize.scan_first_tex]. rewrite Ht.
  unfold Categorize.try_scan. rewrite Hr, Ra, Rd.
  cbn [Categorize.s_abstract Categorize.s_doc Categorize.s_error].
  destruct a as [[fa sa] ea], d as [[fd' sd] ed].
  destruct (Categorize.raw fd) as [[[|]|]|]; cbn; auto.
Qed.

Lemma folder_row_scans_the_tex_file_witness :
  exists a d,
    check_abstract (str "\abstract{hi}") = Returned a /\
    check_document (str "\abstract{hi}") = Returned d /\
    match
      Categorize.folder_row (str "src/1") (str "raw/1.pdf") (str "gr-qc")
        {| Categorize.files := [str "fig.eps"; str "a.tex"; str "a.bbl"];
           Categorize.isdir := fun _ => false;
           Categorize.read := fun _ => Some (str "\abstract{hi}");
           Categorize.raw := Some (Some true) |}
    with
    | Val r =>
        (Categorize.abstract r, Categorize.abs_start r, Categorize.abs_end r)
        = a /\
        (Categorize.doc r, Categorize.doc_start r, Categorize.doc_end r)
        = d /\
        Categorize.num_tex r = 1%Z /\
        Categorize.error r = false
    | Exc _ => Some (Some true) = Some (@None bool)
    | Fuel => False
    end.
Proof.
  exact (folder_row_scans_the_tex_file
           (str "src/1") (str "raw/1.pdf") (str "gr-qc")
           {| Categorize.files := [str "fig.eps"; str "a.tex"; str "a.bbl"];
              Categorize.isdir := fun _ => false;
              Categorize.read := fun _ => Some (str "\abstract{hi}");
              Categorize.raw := Some (Some true) |}
           [str "fig.eps"] [str "a.bbl"] (str "a.tex") (str "\abstract{hi}")
           eq_refl eq_refl eq_refl eq_refl eq_refl).
Defined.

Lemma sum_bools_nonneg (l : list bool) : (0 <= sum_bools l)%Z.
Proof.
  induction l as [|b l IH]; [reflexivity|].
  rewrite sum_bools_cons. destruct b; lia.
Qed.

Lemma no_scan_inv : scan_inv Categorize.no_scan.
Proof. cbn. repeat split; intros; (discriminate || lia). Qed.

Lemma try_scan_inv (fd : Categorize.folder) (f : list char) :
  exists sc, Categorize.try_scan fd f = Val sc /\ scan_inv sc.
Proof.
  unfold Categorize.try_scan. destruct (Categorize.read fd f) as [c|].
  - destruct (scanners_return c) as [[[fa sa] ea] [[[fd' sd] ed]
      [Ra [Rd [[A1 A2] [D1 D2]]]]]].
    rewrite Ra, Rd. eexists. split; [reflexivity|]. cbn.
    repeat split; intros; try (apply A1; assumption);
      try (apply D1; assumption);
      try (apply A2; assumption); try (apply D2; assumption).
  - eexists. split; [reflexivity|]. apply no_scan_inv.
Qed.

Lemma scan_first_tex_inv (fd : Categorize.folder) (fs : list (list char)) :
  exists sc, Categorize.scan_first_tex fd fs = Val sc /\ scan_inv sc.
Proof.
  induction fs as [|f fs IH]; cbn [Categorize.scan_first_tex].
  - eexists. split; [reflexivity | apply no_scan_inv].
  - destruct (endswith f (str ".tex")); [apply try_scan_inv | exact IH].
Qed.

(** The line built for a folder is consistent, and building it never runs
    out of fuel. *)
Lemma folder_row_inv
    (folder_dir raw_dir cat_ : list char) (fd : Categorize.folder) :
  match Categorize.folder_row folder_dir raw_dir cat_ fd with
  | Val r => row_inv r
  | Exc _ => True
  | Fuel => False
  end.
Proof.
  unfold Categorize.folder_row. cbv zeta.
  set (nt := sum_bools
               (map (fun x => endswith x (str ".tex")) (Categorize.files fd))).
  assert (exists sc,
            (if (nt =? 1)%Z
             then Categorize.scan_first_tex fd (Categorize.files fd)
             else Val Categorize.no_scan) = Val sc /\
            scan_inv sc /\
            (nt <> 1%Z -> sc = Categorize.no_scan)) as [sc [-> [I D]]].
  { destruct (Z.eqb_spec nt 1) as [E|E].
    - destruct (scan_first_tex_inv fd (Categorize.files fd)) as [sc [R I]].
      exists sc. split; [exact R|]. split; [exact I|]. congruence.
    - exists Categorize.no_scan. split; [reflexivity|].
      split; [apply no_scan_inv | reflexivity]. }
  unfold scan_inv in I.
  destruct (Categorize.s_abstract sc) as [[fa sa] ea] eqn:Ea.
  destruct (Categorize.s_doc sc) as [[fd' sd] ed] eqn:Ed.
  destruct I as [A1 [A2 [D1 D2]]].
  assert (nt <> 1%Z -> fa = false /\ fd' = false) as G.
  { intros N. rewrite (D N) in Ea, Ed. cbn in Ea, Ed.
    injection Ea as <- _ _. injection Ed as <- _ _. auto. }
  pose proof (sum_bools_nonneg
                (map (fun x => endswith x (str ".tex")) (Categorize.files fd))).
  pose proof (sum_bools_nonneg
                (map (fun x => endswith x (str ".bbl")) (Categorize.files fd))).
  pose proof (sum_bools_nonneg
                (map (Categorize.isdir fd) (Categorize.files fd))).
  destruct (Categorize.raw fd) as [[b|]|]; [| exact I |];
    unfold row_inv; cbn; repeat split; auto;
    try (apply A1; assumption); try (apply A2; assumption);
    try (apply D1; assumption); try (apply D2; assumption);
    try (apply G; assumption).
Qed.

(** X15.  Whatever a folder holds, a line that [categorize] writes for it
    has consistent columns: [abstract] False goes with offsets -1, True
    with 0 <= abs_start < abs_end, the same for [doc]; the scanners are
    not run, and both are False, unless the folder holds exactly one
    [.tex] file; the counts are not negative.  A line is written only
    when the folder could be listed and the line encoded. *)
Theorem folder_row_is_consistent
    (folder_dir raw_dir cat_ : list char)
    (listed : option Categorize.folder)
    (writable : Categorize.row -> bool) :
  match Categorize.folder_step folder_dir raw_dir cat_ listed writable with
  | Val r =>
      row_inv r /\
      writable r = true /\
      exists fd,
        listed = Some fd /\
        Categorize.folder_row folder_dir raw_dir cat_ fd = Val r
  | Exc _ => True
  | Fuel => False
  end.
Proof.
  unfold Categorize.folder_step.
  destruct listed as [fd|]; [|exact I].
  pose proof (folder_row_inv folder_dir raw_dir cat_ fd) as H.
  destruct (Categorize.folder_row folder_dir raw_dir cat_ fd) as [r|e|]
    eqn:R; [| exact I | exact H].
  destruct (writable r) eqn:W; [|exact I].
  split; [exact H|]. split; [exact W|]. exists fd.
  split; [reflexivity | exact R].
Qed.

(** ** Which categories are gone through *)

Lemma raise_if_never (test : list char -> bool) (l : list (list char)) :
  (forall cat, In cat l -> test cat = false) ->
  Download.raise_if test l = Ok tt.
Proof.
  induction l as [|cat l IH]; intros H; cbn [Download.raise_if];
    [reflexivity|].
  rewrite (H cat) by (left; reflexivity).
  apply IH. intros c I. apply H. right. exact I.
Qed.

Lemma str_in_In (x : list char) (l : list (list char)) :
  In x l -> str_in x l = true.
Proof.
  intros I. apply existsb_exists. exists x. split; [exact I|].
  apply list_eqb_refl.
Qed.

(** X16.  [download_arxiv] checks a single category name against its
    thirteen categories and raises [ValueError] for another name, but a
    list of names is taken as it is given: the test of its loop never
    holds, so no name of a list is ever refused. *)
Theorem download_categories_list_unchecked
    (l : list (list char)) (c : list char) :
  Download.download_categories (Download.CategoryList l) = Ok l /\
  Download.download_categories (Download.CategoryName c) =
    (if str_in c Download.categories then Ok [c] else Raise ValueError) /\
  Download.download_categories (Download.CategoryList [str "no-such"])
    = Ok [str "no-such"] /\
  Download.download_categories (Download.CategoryName (str "no-such"))
    = Raise ValueError.
Proof.
  repeat split.
  unfold Download.download_categories.
  rewrite raise_if_never; [reflexivity|].
  intros cat _. apply andb_false_r.
Qed.

(** X17.  [retrieve_sources] refuses nothing: a list of names is taken as
    it is given, since every name of the list is in the list, and a single
    name that is not a folder of [arxiv_dir] is dropped without a word,
    all the folders being gone through instead. *)
Theorem retrieve_categories_never_raises
    (listed l : list (list char)) (c : list char) :
  Download.retrieve_categories listed (Download.CategoryList l) = Ok l /\
  Download.retrieve_categories listed (Download.CategoryName c) =
    Ok (if str_in c listed then [c] else listed).
Proof.
  split; unfold Download.retrieve_categories.
  - rewrite raise_if_never; [reflexivity|].
    intros cat I. rewrite (str_in_In cat l I). reflexivity.
  - destruct (str_in c listed); reflexivity.
Qed.
